(** * neo4j-redis: the query builder, the transaction protocol and the
      response helpers of [index.js], embedded in Rocq.

    The embedding follows the source file class by class:
    - [QueryBuilder] ([add], [toString]),
    - [Transaction] ([addQuery], [cacheable], [_processTransaction],
      [execute]),
    - [Neo4j] ([createTransaction], [getSimpleData], [toProps],
      [toNamedProps], [toSets]).

    JavaScript values are a tree type, strings are sequences of UTF-16
    code units, a thrown exception is a value of [Thrown], and the
    asynchronous calls (fetch, the cache client) are answered by an
    environment and recorded in a trace of events. *)

From Stdlib Require Import String Ascii List ZArith NArith Bool Lia.
From Stdlib Require Import Numbers.DecimalString.
Import ListNotations.

Set Warnings "-register-all".

(* ================================================================= *)
(** ** JavaScript strings *)

(** A string is its sequence of UTF-16 code units. *)
Definition code_unit := N.
Definition jsstring := list code_unit.

(** A string literal of the source, as code units. *)
Fixpoint js (s : string) : jsstring :=
  match s with
  | EmptyString => []
  | String a r => N_of_ascii a :: js r
  end.

Definition jsstring_eqb (a b : jsstring) : bool :=
  if list_eq_dec N.eq_dec a b then true else false.

Definition TAB : code_unit := 9%N.
Definition LF : code_unit := 10%N.
Definition CR : code_unit := 13%N.
Definition SPACE : code_unit := 32%N.
Definition QUOTE : code_unit := 34%N.

(** The class [\s] of a regular expression, which is also the set that
    [String.prototype.trim] removes: WhiteSpace and LineTerminator. *)
Definition is_ws (c : code_unit) : bool :=
  ((9 <=? c) && (c <=? 13) || (c =? 32) || (c =? 160) || (c =? 5760)
   || ((8192 <=? c) && (c <=? 8202)) || (c =? 8232) || (c =? 8233)
   || (c =? 8239) || (c =? 8287) || (c =? 12288) || (c =? 65279))%N.

(** [Array.prototype.join] on strings. *)
Fixpoint join (sep : jsstring) (parts : list jsstring) : jsstring :=
  match parts with
  | [] => []
  | [p] => p
  | p :: rest => p ++ sep ++ join sep rest
  end.

(* ================================================================= *)
(** ** JavaScript values, exceptions, completions *)

(** Numbers are the integers; [Number_toString] below prints them the
    way JavaScript prints an integer below 10^21 in magnitude. *)
Inductive JSValue : Type :=
| JUndefined
| JNull
| JBool (b : bool)
| JNum (n : Z)
| JStr (s : jsstring)
| JArr (elems : list JSValue)
| JObj (props : list (jsstring * JSValue)).
(** An object is its list of own enumerable properties, in the order
    [Object.keys] reports them. *)

Inductive Thrown : Type :=
| Error (message : jsstring)          (* throw new Error(message) *)
| TypeError                           (* property read on undefined or null *)
| ReferenceError (ident : jsstring)   (* an identifier with no binding *)
| Raised (v : JSValue)                (* throw of a plain value *)
| HostError (reason : jsstring).      (* a rejection made by fetch, json() or the cache client *)

Inductive Completion (A : Type) : Type :=
| Normal (a : A)
| Throw (e : Thrown).
Arguments Normal {A} a.
Arguments Throw {A} e.

Definition bind {A B} (c : Completion A) (k : A -> Completion B) : Completion B :=
  match c with
  | Normal a => k a
  | Throw e => Throw e
  end.

Declare Scope js_scope.
Delimit Scope js_scope with js.
Notation "x <- c ;; k" := (bind c (fun x => k))
  (at level 61, c at next level, right associativity) : js_scope.

Definition Number_toString (n : Z) : jsstring :=
  js (NilEmpty.string_of_int (Z.to_int n)).

Definition Boolean_toString (b : bool) : jsstring :=
  if b then js "true" else js "false".

(** The [typeof] operator. *)
Definition typeof (v : JSValue) : jsstring :=
  match v with
  | JUndefined => js "undefined"
  | JNull => js "object"
  | JBool _ => js "boolean"
  | JNum _ => js "number"
  | JStr _ => js "string"
  | JArr _ => js "object"
  | JObj _ => js "object"
  end.

(** ToBoolean, as used by [!x] and [if (x)]. *)
Definition truthy (v : JSValue) : bool :=
  match v with
  | JUndefined | JNull => false
  | JBool b => b
  | JNum n => negb (n =? 0)%Z
  | JStr s => match s with [] => false | _ => true end
  | JArr _ | JObj _ => true
  end.

Fixpoint lookup (k : jsstring) (props : list (jsstring * JSValue)) : option JSValue :=
  match props with
  | [] => None
  | (k', v) :: rest => if jsstring_eqb k k' then Some v else lookup k rest
  end.

(** [v.name] for the property names the source reads ([data], [columns],
    [row], [length]); none of them is inherited from a prototype. *)
Definition Get (v : JSValue) (name : jsstring) : Completion JSValue :=
  match v with
  | JUndefined | JNull => Throw TypeError
  | JObj props =>
      match lookup name props with
      | Some x => Normal x
      | None => Normal JUndefined
      end
  | JArr elems =>
      if jsstring_eqb name (js "length")
      then Normal (JNum (Z.of_nat (length elems)))
      else Normal JUndefined
  | JStr s =>
      if jsstring_eqb name (js "length")
      then Normal (JNum (Z.of_nat (length s)))
      else Normal JUndefined
  | JBool _ | JNum _ => Normal JUndefined
  end.

(** [v[i]] for a literal index. *)
Definition GetIndex (v : JSValue) (i : nat) : Completion JSValue :=
  match v with
  | JUndefined | JNull => Throw TypeError
  | JArr elems => Normal (nth i elems JUndefined)
  | JStr s =>
      match nth_error s i with
      | Some c => Normal (JStr [c])
      | None => Normal JUndefined
      end
  | JObj props =>
      match lookup (Number_toString (Z.of_nat i)) props with
      | Some x => Normal x
      | None => Normal JUndefined
      end
  | JBool _ | JNum _ => Normal JUndefined
  end.

(** [v === n] for a number literal [n]. *)
Definition strict_eq_num (v : JSValue) (n : Z) : bool :=
  match v with
  | JNum m => (m =? n)%Z
  | _ => false
  end.

(** ToString, as applied by [Array.prototype.join] to each element
    (where [undefined] and [null] give the empty string). *)
Fixpoint ToString (v : JSValue) : jsstring :=
  match v with
  | JUndefined => js "undefined"
  | JNull => js "null"
  | JBool b => Boolean_toString b
  | JNum n => Number_toString n
  | JStr s => s
  | JArr elems =>
      join (js ",")
        (map (fun e => match e with
                       | JUndefined | JNull => []
                       | _ => ToString e
                       end) elems)
  | JObj _ => js "[object Object]"
  end.

Definition join_element (v : JSValue) : jsstring :=
  match v with
  | JUndefined | JNull => []
  | _ => ToString v
  end.

Definition Array_join (sep : jsstring) (a : list JSValue) : jsstring :=
  join sep (map join_element a).

(* ================================================================= *)
(** ** class QueryBuilder *)

Record QueryBuilder : Type := mkQueryBuilder { q : list JSValue }.

(** [constructor()]: [this.q = []]. *)
Definition new_QueryBuilder : QueryBuilder := mkQueryBuilder [].

(** [add(partial)].  The method mutates [this.q] and may throw part of
    the way through a [forEach]; the result is the list after the call
    together with the exception, if one escaped.  [partial.constructor]
    throws on [undefined] and [null]; it is [Array] exactly for arrays. *)
Fixpoint add_q (partial : JSValue) (acc : list JSValue) {struct partial}
  : list JSValue * option Thrown :=
  match partial with
  | JArr elems =>
      (fix forEach (l : list JSValue) (acc : list JSValue) {struct l}
         : list JSValue * option Thrown :=
         match l with
         | [] => (acc, None)
         | element :: rest =>
             match add_q element acc with
             | (acc', None) => forEach rest acc'
             | (acc', Some e) => (acc', Some e)
             end
         end) elems acc
  | JUndefined | JNull => (acc, Some TypeError)
  | _ => (acc ++ [partial], None)
  end.

Definition add (partial : JSValue) (qb : QueryBuilder)
  : QueryBuilder * option Thrown :=
  let (acc, e) := add_q partial (q qb) in (mkQueryBuilder acc, e).

(** [replace(/\s\s+/g, ' ')]: scanning from the left, a match starts at a
    white-space character that is followed by another one and, being
    greedy, runs to the end of the white-space run.  [in_match] is true
    while the [\s+] of a match that has started is still consuming. *)
Fixpoint replace_ws_runs_from (in_match : bool) (s : jsstring) : jsstring :=
  match s with
  | [] => []
  | c :: r =>
      if in_match then
        if is_ws c then replace_ws_runs_from true r
        else c :: replace_ws_runs_from false r
      else
        match r with
        | d :: _ =>
            if is_ws c && is_ws d then SPACE :: replace_ws_runs_from true r
            else c :: replace_ws_runs_from false r
        | [] => [c]
        end
  end.

Definition replace_ws_runs (s : jsstring) : jsstring :=
  replace_ws_runs_from false s.

(** [replace(/(?:\r\n|\r|\n|\t)/g, '')]: the alternatives are tried in
    order at each position and the match is deleted. *)
Fixpoint remove_breaks (s : jsstring) : jsstring :=
  match s with
  | [] => []
  | c :: r =>
      if (c =? CR)%N then
        match r with
        | d :: r' => if (d =? LF)%N then remove_breaks r' else remove_breaks r
        | [] => []
        end
      else if ((c =? LF) || (c =? TAB))%N then remove_breaks r
      else c :: remove_breaks r
  end.

(** [trim()]: white space removed from both ends. *)
Fixpoint trim_start (s : jsstring) : jsstring :=
  match s with
  | [] => []
  | c :: r => if is_ws c then trim_start r else s
  end.

Fixpoint trim_end (s : jsstring) : jsstring :=
  match s with
  | [] => []
  | c :: r =>
      match trim_end r with
      | [] => if is_ws c then [] else [c]
      | r' => c :: r'
      end
  end.

Definition trim (s : jsstring) : jsstring := trim_end (trim_start s).

(** [toString()]. *)
Definition toString (qb : QueryBuilder) : jsstring :=
  trim (remove_breaks (replace_ws_runs (Array_join (js " ") (q qb)))).

(** A sequence of calls [qb.add(p1); qb.add(p2); ...], stopping at the
    first one that throws. *)
Fixpoint add_all (partials : list JSValue) (qb : QueryBuilder)
  : QueryBuilder * option Thrown :=
  match partials with
  | [] => (qb, None)
  | p :: rest =>
      match add p qb with
      | (qb', None) => add_all rest qb'
      | (qb', Some e) => (qb', Some e)
      end
  end.

(* ================================================================= *)
(** ** The world of a transaction: HTTP, the cache client, the trace *)

(** The identity of a cache client object ([new Cacher(...)]). *)
Definition Handle := nat.

(** One entry of [this.statements]. *)
Record Statement : Type := mkStatement {
  statement : jsstring;
  parameters : JSValue
}.

(** The arguments of a call [fetch(url, options)].  [body] is the batch
    handed to [JSON.stringify({statements: ...})], when there is one. *)
Record Request : Type := mkRequest {
  url : JSValue;
  method : jsstring;
  headers : list (jsstring * jsstring);
  body : option (list Statement)
}.

(** The database's JSON answer to the batch, the object
    [{results, errors, commit}] with [errors] an array.  [results] and
    [commit] are any values, [undefined] when the property is absent. *)
Record Envelope : Type := mkEnvelope {
  results : JSValue;
  errors : list JSValue;
  commit : JSValue
}.

(** What the promise of [fetch] is fulfilled with; [json] is the outcome
    of [res.json()]. *)
Record Response : Type := mkResponse {
  status : Z;
  statusText : jsstring;
  json : Completion Envelope
}.

(** Modelled from the spec: the constants [HTTP_OK] and [HTTP_CREATED] of
    the package fwsp-server-response, which the source imports; the spec
    gives them as 200 (OK) and 201 (Created). *)
Definition HTTP_OK : Z := 200.
Definition HTTP_CREATED : Z := 201.

Inductive Event : Type :=
| Fetch (r : Request)                                  (* fetch(url, options) *)
| SetCachePrefix (h : Handle) (prefix : JSValue)       (* h.setCachePrefix(prefix) *)
| GetData (h : Handle) (key : JSValue)                 (* h.getData(key) *)
| SetData (h : Handle) (key value duration : JSValue)  (* h.setData(key, value, duration) *)
| ConsoleLog (reason : Thrown).                        (* console.log('reason', reason) *)

Fixpoint requests_of (tr : list Event) : list Request :=
  match tr with
  | [] => []
  | Fetch r :: rest => r :: requests_of rest
  | _ :: rest => requests_of rest
  end.

(** The environment a transaction runs in.
    - [global_cacher]: what the free identifier [cacher] of the module is
      bound to; the module declares no such variable, so it is bound only
      if the host defines a global of that name.
    - [server]: how the promise of a [fetch] settles, given the requests
      issued before it and the request itself.
    - [cache_getData]: how the promise of [getData(key)] settles on a
      client whose prefix has been set; a rejection is a miss or an error. *)
Record Env : Type := mkEnv {
  global_cacher : option Handle;
  server : list Request -> Request -> Completion Response;
  cache_getData : Handle -> JSValue -> JSValue -> Completion JSValue
}.

(** A step of a promise chain: it extends the trace and either passes a
    value on or rejects. *)
Definition Chain (A : Type) : Type := list Event -> list Event * Completion A.

Definition pure {A} (a : A) : Chain A := fun tr => (tr, Normal a).
Definition throw {A} (e : Thrown) : Chain A := fun tr => (tr, Throw e).
Definition lift {A} (c : Completion A) : Chain A := fun tr => (tr, c).
Definition and_then {A B} (c : Chain A) (k : A -> Chain B) : Chain B :=
  fun tr =>
    match c tr with
    | (tr', Normal a) => k a tr'
    | (tr', Throw e) => (tr', Throw e)
    end.
Definition emit (e : Event) : Chain unit := fun tr => (tr ++ [e], Normal tt).

Notation "x <~ c ;; k" := (and_then c (fun x => k))
  (at level 61, c at next level, right associativity) : js_scope.

(** [fetch(...)] whose promise the chain waits for. *)
Definition fetch (env : Env) (r : Request) : Chain Response :=
  fun tr => (tr ++ [Fetch r], server env (requests_of tr) r).

(** [fetch(...)] as a statement: the request is issued and its promise
    is dropped. *)
Definition fetch_detached (r : Request) : Chain unit := emit (Fetch r).

Inductive Outcome : Type :=
| Resolved (v : JSValue)
| Rejected (e : Thrown).

Definition settle (c : Completion JSValue) : Outcome :=
  match c with
  | Normal v => Resolved v
  | Throw e => Rejected e
  end.

(* ================================================================= *)
(** ** class Transaction *)

(** The fields are those the constructor sets, and [cachable], which
    [_processTransaction] reads and nothing in the class assigns. *)
Record Transaction : Type := mkTransaction {
  used : bool;
  auth : jsstring;
  cacher : option Handle;
  cached : bool;
  cachePrefix : JSValue;
  cacheKey : JSValue;
  cacheDuration : JSValue;
  transactionUrl : jsstring;
  statements : list Statement;
  cachable : JSValue
}.

(** [constructor(transactionUrl, auth, cacher)]. *)
Definition new_Transaction (transactionUrl auth : jsstring) (cacher : option Handle)
  : Transaction :=
  {| used := false;
     auth := auth;
     cacher := cacher;
     cached := false;
     cachePrefix := JStr [];
     cacheKey := JStr [];
     cacheDuration := JNum 0;
     transactionUrl := transactionUrl;
     statements := [];
     cachable := JUndefined |}.

Definition set_used (t : Transaction) : Transaction :=
  {| used := true;
     auth := auth t;
     cacher := cacher t;
     cached := cached t;
     cachePrefix := cachePrefix t;
     cacheKey := cacheKey t;
     cacheDuration := cacheDuration t;
     transactionUrl := transactionUrl t;
     statements := statements t;
     cachable := cachable t |}.

Definition push_statement (s : Statement) (t : Transaction) : Transaction :=
  {| used := used t;
     auth := auth t;
     cacher := cacher t;
     cached := cached t;
     cachePrefix := cachePrefix t;
     cacheKey := cacheKey t;
     cacheDuration := cacheDuration t;
     transactionUrl := transactionUrl t;
     statements := statements t ++ [s];
     cachable := cachable t |}.

Definition set_cache (prefix key duration : JSValue) (t : Transaction) : Transaction :=
  {| used := used t;
     auth := auth t;
     cacher := cacher t;
     cached := true;
     cachePrefix := prefix;
     cacheKey := key;
     cacheDuration := duration;
     transactionUrl := transactionUrl t;
     statements := statements t;
     cachable := cachable t |}.

(** [addQuery(queryBuilder, params)]; on success the method returns
    [this], here the transaction after the push. *)
Definition addQuery (qb : QueryBuilder) (params : JSValue) (t : Transaction)
  : Completion Transaction :=
  if used t then Throw (Error (js "Can't reuse transaction"))
  else Normal (push_statement (mkStatement (toString qb) params) t).

(** [cacheable(prefix, key, duration)]. *)
Definition cacheable (prefix key duration : JSValue) (t : Transaction)
  : Completion Transaction :=
  match cacher t with
  | None => Throw (Error (js "Attempt to use cacher without calling initCacheDB()"))
  | Some _ => Normal (set_cache prefix key duration t)
  end.

Local Open Scope js_scope.

(** The [headers] object built at the top of [_processTransaction]. *)
Definition request_headers (t : Transaction) : list (jsstring * jsstring) :=
  [ (js "content-type", js "application/json");
    (js "Accept", js "application/json; charset=UTF-8");
    (js "Authorization", js "Basic " ++ auth t) ].

(** [fetch(this.transactionUrl, options)]. *)
Definition batch_request (t : Transaction) : Request :=
  {| url := JStr (transactionUrl t);
     method := js "post";
     headers := request_headers t;
     body := Some (statements t) |}.

(** [fetch(this.transactionUrl, {headers, 'method': 'delete'})]. *)
Definition rollback_request (t : Transaction) : Request :=
  {| url := JStr (transactionUrl t);
     method := js "delete";
     headers := request_headers t;
     body := None |}.

(** [fetch(json.commit, {headers, 'method': 'post'})]. *)
Definition commit_request (t : Transaction) (commit_url : JSValue) : Request :=
  {| url := commit_url;
     method := js "post";
     headers := request_headers t;
     body := None |}.

(** First [.then]: the response to the batch. *)
Definition on_batch_response (t : Transaction) (res : Response) : Chain Envelope :=
  if negb (status res =? HTTP_OK)%Z && negb (status res =? HTTP_CREATED)%Z then
    _ <~ fetch_detached (rollback_request t) ;;
    throw (Error (statusText res))
  else lift (json res).

(** Second [.then]: the parsed body.  It passes on the commit response
    together with [result], the variable it assigns. *)
Definition on_batch_json (env : Env) (t : Transaction) (body : Envelope)
  : Chain (JSValue * Response) :=
  if (0 <? Z.of_nat (length (errors body)))%Z then
    throw (Raised (JArr (errors body)))
  else
    res <~ fetch env (commit_request t (commit body)) ;;
    pure (results body, res).

(** Third [.then]: the response to the commit.  The value it returns is
    the one [resolve] is called with. *)
Definition on_commit_response (env : Env) (t : Transaction)
    (result : JSValue) (res : Response) : Chain JSValue :=
  if (status res =? HTTP_OK)%Z then
    if truthy (cachable t) then
      match cacher t with
      | None => throw (Error (js "Attempt to use cacher without calling initCacheDB()"))
      | Some _ =>
          match global_cacher env with
          | None => throw (ReferenceError (js "cacher"))
          | Some g =>
              _ <~ emit (SetCachePrefix g (cachePrefix t)) ;;
              _ <~ emit (SetData g (cacheKey t) result (cacheDuration t)) ;;
              pure result
          end
      end
    else pure result
  else throw (Error (js "commit failed")).

(** The state of affairs when the call [_processTransaction(resolve,
    reject)] returns: the batch has been sent, the callbacks are
    registered and none has run, [this.used] is true. *)
Definition _processTransaction_call (t : Transaction) (tr : list Event)
  : Transaction * list Event :=
  (set_used t, tr ++ [Fetch (batch_request t)]).

(** The callbacks, from the settling of the first [fetch] to the final
    [.catch(reject)]. *)
Definition _processTransaction_callbacks (env : Env) (this : Transaction)
    (first : Completion Response) : Chain JSValue :=
  res <~ lift first ;;
  body <~ on_batch_response this res ;;
  p <~ on_batch_json env this body ;;
  on_commit_response env this (fst p) (snd p).

(** A finished run: the transaction object, everything that was issued,
    and how the promise given to the caller settled. *)
Record Run : Type := mkRun {
  this_after : Transaction;
  trace : list Event;
  settled : Outcome
}.

(** [_processTransaction(resolve, reject)], run to the end. *)
Definition _processTransaction (env : Env) (t : Transaction) (tr : list Event) : Run :=
  let first := server env (requests_of tr) (batch_request t) in
  let (this, tr1) := _processTransaction_call t tr in
  let (tr2, c) := _processTransaction_callbacks env this first tr1 in
  {| this_after := this; trace := tr2; settled := settle c |}.

(** [execute()].  An exception thrown inside the executor of
    [new Promise] rejects the promise. *)
Definition execute (env : Env) (t : Transaction) : Run :=
  if cached t then
    match global_cacher env with
    | None =>
        {| this_after := t; trace := []; settled := Rejected (ReferenceError (js "cacher")) |}
    | Some g =>
        let tr := [SetCachePrefix g (cachePrefix t); GetData g (cacheKey t)] in
        match cache_getData env g (cachePrefix t) (cacheKey t) with
        | Normal cachedData =>
            {| this_after := t; trace := tr; settled := Resolved cachedData |}
        | Throw reason =>
            _processTransaction env t (tr ++ [ConsoleLog reason])
        end
    end
  else _processTransaction env t [].

(* ================================================================= *)
(** ** class Neo4j *)

(** [createTransaction()], from the three fields of the facade. *)
Definition createTransaction (graphDatabaseUrl auth : jsstring) (cacher : option Handle)
  : Transaction :=
  new_Transaction (graphDatabaseUrl ++ js "/db/data/transaction") auth cacher.

(** [createQueryBuilder()]. *)
Definition createQueryBuilder : QueryBuilder := new_QueryBuilder.

(** [getSimpleData(result)]. *)
Definition getSimpleData (result : JSValue) : Completion JSValue :=
  result <- GetIndex result 0 ;;
  if negb (truthy result) then Normal JNull else
  data <- Get result (js "data") ;;
  if negb (truthy data) then Normal JNull else
  len <- Get data (js "length") ;;
  if strict_eq_num len 0 then Normal JNull else
  columns <- Get result (js "columns") ;;
  clen <- Get columns (js "length") ;;
  if strict_eq_num clen 1 then
    data0 <- GetIndex data 0 ;;
    if jsstring_eqb (typeof data0) (js "object") then
      row <- Get data0 (js "row") ;;
      GetIndex row 0
    else
      GetIndex data0 0
  else Normal JNull.

(** [obj[k]] on an object given by its properties. *)
Definition prop (obj : list (jsstring * JSValue)) (k : jsstring) : JSValue :=
  match lookup k obj with
  | Some v => v
  | None => JUndefined
  end.

Definition Object_keys (obj : list (jsstring * JSValue)) : list jsstring :=
  map fst obj.

(** The [forEach] of [toProps]: [ret] grows by one entry per key until a
    value of an unsupported type throws. *)
Fixpoint toProps_forEach (obj : list (jsstring * JSValue)) (objKeys : list jsstring)
    (ret : list jsstring) : Completion (list jsstring) :=
  match objKeys with
  | [] => Normal ret
  | k :: rest =>
      if jsstring_eqb (typeof (prop obj k)) (js "string") then
        toProps_forEach obj rest (ret ++ [k ++ js ":" ++ [QUOTE] ++ ToString (prop obj k) ++ [QUOTE]])
      else if jsstring_eqb (typeof (prop obj k)) (js "number") then
        toProps_forEach obj rest (ret ++ [k ++ js ":" ++ ToString (prop obj k)])
      else if jsstring_eqb (typeof (prop obj k)) (js "boolean") then
        toProps_forEach obj rest (ret ++ [k ++ js ":" ++ ToString (prop obj k)])
      else if jsstring_eqb (typeof (prop obj k)) (js "array") then
        toProps_forEach obj rest (ret ++ [k ++ js ":[]"])
      else Throw (Error (js "property type not supported"))
  end.

(** [toProps(obj)]. *)
Definition toProps (obj : list (jsstring * JSValue)) : Completion jsstring :=
  ret <- toProps_forEach obj (Object_keys obj) [] ;;
  Normal (join (js ", ") ret).

(** [toNamedProps(name, obj)]. *)
Definition toNamedProps (name : jsstring) (obj : list (jsstring * JSValue)) : jsstring :=
  join (js ", ")
    (map (fun k => k ++ js ":{" ++ name ++ js "}." ++ k) (Object_keys obj)).

(** [toSets(v, objName, obj)]. *)
Definition toSets (v objName : jsstring) (obj : list (jsstring * JSValue)) : jsstring :=
  join [LF]
    ([LF] :: map (fun k => js "  SET " ++ v ++ js "." ++ k ++ js " = {" ++ objName ++ js "}." ++ k)
               (Object_keys obj)).

(* ================================================================= *)
(** ** Vocabulary of the properties *)

(** *** Rendered statements *)

Definition is_break (c : code_unit) : bool :=
  ((c =? LF) || (c =? CR) || (c =? TAB))%N.

(** No two neighbouring code units are both white space. *)
Fixpoint adj_free (s : jsstring) : Prop :=
  match s with
  | [] => True
  | c :: r =>
      match r with
      | [] => True
      | d :: _ => is_ws c && is_ws d = false
      end /\ adj_free r
  end.

Definition no_line_breaks (s : jsstring) : Prop :=
  ~ In LF s /\ ~ In CR s /\ ~ In TAB s.

Definition no_double_space (s : jsstring) : Prop :=
  forall a b, s <> a ++ SPACE :: SPACE :: b.

Definition no_outer_ws (s : jsstring) : Prop :=
  (forall c r, s = c :: r -> is_ws c = false) /\
  (forall r c, s = r ++ [c] -> is_ws c = false).

(** *** Fragments handed to [add] *)

(** A string fragment, or a sequence of such things. *)
Inductive Fragments : Type :=
| Fragment (s : jsstring)
| Sequence (l : list Fragments).

Fixpoint value_of (f : Fragments) : JSValue :=
  match f with
  | Fragment s => JStr s
  | Sequence l => JArr (map value_of l)
  end.

(** The strings of a fragment tree, left to right. *)
Fixpoint flatten (f : Fragments) : list jsstring :=
  match f with
  | Fragment s => [s]
  | Sequence l => flat_map flatten l
  end.

(** [add] as the specification words it: a single fragment is appended,
    a sequence is flattened by one level only, so that its elements are
    appended as they are. *)
Definition add_one_level (partial : JSValue) (qb : QueryBuilder)
  : QueryBuilder * option Thrown :=
  match partial with
  | JArr elems => (mkQueryBuilder (q qb ++ elems), None)
  | JUndefined | JNull => (qb, Some TypeError)
  | _ => (mkQueryBuilder (q qb ++ [partial]), None)
  end.

(** The [forEach] of [add], as a function of its own. *)
Fixpoint add_each (l : list JSValue) (acc : list JSValue)
  : list JSValue * option Thrown :=
  match l with
  | [] => (acc, None)
  | element :: rest =>
      match add_q element acc with
      | (acc', None) => add_each rest acc'
      | (acc', Some e) => (acc', Some e)
      end
  end.

(** *** Use of a transaction object *)

(** A call made on a transaction by its owner. *)
Inductive Call : Type :=
| CallAddQuery (qb : QueryBuilder) (params : JSValue)
| CallCacheable (prefix key duration : JSValue)
| CallExecute (env : Env).

(** The object after a call, whether the call threw or not. *)
Definition after_call (t : Transaction) (c : Call) : Transaction :=
  match c with
  | CallAddQuery qb params =>
      match addQuery qb params t with
      | Normal t' => t'
      | Throw _ => t
      end
  | CallCacheable prefix key duration =>
      match cacheable prefix key duration t with
      | Normal t' => t'
      | Throw _ => t
      end
  | CallExecute env => this_after (execute env t)
  end.

Definition after_calls (calls : list Call) (t : Transaction) : Transaction :=
  fold_left after_call calls t.

(** Whether [execute()] gets as far as [_processTransaction]: it does
    unless the transaction is marked cached and either the identifier
    [cacher] is unbound or the cache has the key. *)
Definition begins_protocol (env : Env) (t : Transaction) : bool :=
  if cached t then
    match global_cacher env with
    | None => false
    | Some g =>
        match cache_getData env g (cachePrefix t) (cacheKey t) with
        | Normal _ => false
        | Throw _ => true
        end
    end
  else true.

(** What [execute()] has done by the time it calls [_processTransaction]. *)
Definition preamble (env : Env) (t : Transaction) : list Event :=
  if cached t then
    match global_cacher env with
    | None => []
    | Some g =>
        match cache_getData env g (cachePrefix t) (cacheKey t) with
        | Normal _ => []
        | Throw reason =>
            [SetCachePrefix g (cachePrefix t); GetData g (cacheKey t); ConsoleLog reason]
        end
    end
  else [].

Definition is_SetData (e : Event) : bool :=
  match e with
  | SetData _ _ _ _ => true
  | _ => false
  end.

(** The entry a supported property contributes to [toProps]. *)
Definition inline_property (kv : jsstring * JSValue) : jsstring :=
  match snd kv with
  | JStr s => fst kv ++ js ":" ++ [QUOTE] ++ s ++ [QUOTE]
  | JNum n => fst kv ++ js ":" ++ Number_toString n
  | JBool b => fst kv ++ js ":" ++ Boolean_toString b
  | _ => []
  end.

Definition inline_supported (v : JSValue) : bool :=
  match v with
  | JStr _ | JNum _ | JBool _ => true
  | _ => false
  end.

(** The environment [env], except that the second request issued is
    answered with [answer]. *)
Definition answer_second_request (env : Env) (answer : Completion Response) : Env :=
  {| global_cacher := global_cacher env;
     server := fun earlier r =>
                 match earlier with
                 | [_] => answer
                 | _ => server env earlier r
                 end;
     cache_getData := cache_getData env |}.

(** *** Sample worlds *)

Definition sample_results : JSValue :=
  JArr [JObj [(js "columns", JArr [JStr (js "n")]);
              (js "data", JArr [JObj [(js "row", JArr [JNum 1])]])]].

Definition sample_commit_url : JSValue :=
  JStr (js "http://localhost:7474/db/data/transaction/1/commit").

(** A database that accepts the batch with 201 and the commit with 200. *)
Definition committing_server (earlier : list Request) (r : Request)
  : Completion Response :=
  match earlier with
  | [] => Normal (mkResponse 201 (js "Created")
                    (Normal (mkEnvelope sample_results [] sample_commit_url)))
  | _ => Normal (mkResponse 200 (js "OK") (Throw (HostError (js "empty body"))))
  end.

(** A database that has no transaction endpoint. *)
Definition missing_server (earlier : list Request) (r : Request)
  : Completion Response :=
  Normal (mkResponse 404 (js "Not Found") (Throw (HostError (js "not JSON")))).

(** A database that reports an error of the query. *)
Definition failing_server (earlier : list Request) (r : Request)
  : Completion Response :=
  Normal (mkResponse 200 (js "OK")
            (Normal (mkEnvelope (JArr []) [JObj [(js "code", JStr (js "X"))]]
                       sample_commit_url))).

(** A cache that has nothing. *)
Definition empty_cache (h : Handle) (prefix key : JSValue) : Completion JSValue :=
  Throw (HostError (js "no data")).

(** [q.add("RETURN 1")] on a new builder. *)
Definition sample_query : QueryBuilder :=
  mkQueryBuilder [JStr (js "RETURN 1")].

(** A transaction of a facade on which [initCacheDB] was called (the
    cache client is object 0), after [addQuery(q, {})]. *)
Definition sample_transaction : Transaction :=
  push_statement (mkStatement (js "RETURN 1") (JObj []))
    (createTransaction (js "http://localhost:7474") (js "bmVvNGo6cGFzcw==") (Some 0)).

(** The same after [cacheable("students", "all", 60)]. *)
Definition sample_cached_transaction : Transaction :=
  set_cache (JStr (js "students")) (JStr (js "all")) (JNum 60) sample_transaction.

(** The module as it is loaded by the tests: nothing defines a global
    named [cacher]. *)
Definition plain_world : Env :=
  {| global_cacher := None; server := committing_server; cache_getData := empty_cache |}.

(** A host that has defined a global [cacher], the client of the facade
    itself, whose cache is empty. *)
Definition global_cacher_world : Env :=
  {| global_cacher := Some 0; server := committing_server; cache_getData := empty_cache |}.

Definition missing_world : Env :=
  {| global_cacher := None; server := missing_server; cache_getData := empty_cache |}.

Definition failing_world : Env :=
  {| global_cacher := None; server := failing_server; cache_getData := empty_cache |}.


(* ================================================================= *)
(** ** class Neo4j: configuration *)

(** [new Buffer(string)]: the UTF-8 bytes of a string.  A surrogate pair
    is one code point of four bytes; a surrogate on its own is written
    as U+FFFD. *)
Definition is_high_surrogate (c : code_unit) : bool :=
  ((55296 <=? c) && (c <=? 56319))%N.

Definition is_low_surrogate (c : code_unit) : bool :=
  ((56320 <=? c) && (c <=? 57343))%N.

Fixpoint utf8_encode (s : jsstring) : list N :=
  match s with
  | [] => []
  | c :: r =>
      if (c <? 128)%N then c :: utf8_encode r
      else if (c <? 2048)%N then
        (192 + c / 64)%N :: (128 + c mod 64)%N :: utf8_encode r
      else if is_high_surrogate c then
        match r with
        | d :: r' =>
            if is_low_surrogate d then
              let cp := (65536 + (c - 55296) * 1024 + (d - 56320))%N in
              (240 + cp / 262144)%N :: (128 + (cp / 4096) mod 64)%N
                :: (128 + (cp / 64) mod 64)%N :: (128 + cp mod 64)%N
                :: utf8_encode r'
            else 239%N :: 191%N :: 189%N :: utf8_encode r
        | [] => [239%N; 191%N; 189%N]
        end
      else if is_low_surrogate c then 239%N :: 191%N :: 189%N :: utf8_encode r
      else
        (224 + c / 4096)%N :: (128 + (c / 64) mod 64)%N :: (128 + c mod 64)%N
          :: utf8_encode r
  end.

(** [buffer.toString('base64')]: the alphabet [A-Z a-z 0-9 + /], three
    bytes to four characters, padded with [=]. *)
Definition base64_char (i : N) : code_unit :=
  (if i <? 26 then 65 + i
   else if i <? 52 then 71 + i
   else if i <? 62 then i - 4
   else if i =? 62 then 43
   else 47)%N.

Definition PAD : code_unit := 61%N.

Fixpoint base64_encode (bytes : list N) : jsstring :=
  match bytes with
  | [] => []
  | [a] =>
      [base64_char (a / 4); base64_char ((a mod 4) * 16); PAD; PAD]%N
  | [a; b] =>
      [base64_char (a / 4); base64_char ((a mod 4) * 16 + b / 16);
       base64_char ((b mod 16) * 4); PAD]%N
  | a :: b :: c :: rest =>
      (base64_char (a / 4) :: base64_char ((a mod 4) * 16 + b / 16)
        :: base64_char ((b mod 16) * 4 + c / 64) :: base64_char (c mod 64)
        :: base64_encode rest)%N
  end.

Module Facade.

(** The fields the constructor of [Neo4j] sets. *)
Record Neo4j : Type := mkNeo4j {
  graphDatabaseUrl : jsstring;
  auth : jsstring;
  cacher : option Handle
}.

(** [constructor()]. *)
Definition new_Neo4j : Neo4j :=
  {| graphDatabaseUrl := []; auth := []; cacher := None |}.

(** [initGraphDB(graphDBUrl, userName, password)].  The concatenation
    [userName + ':' + password] has a string operand, so both sides are
    converted with ToString. *)
Definition initGraphDB (graphDBUrl : jsstring) (userName password : JSValue)
    (this : Neo4j) : Neo4j :=
  {| graphDatabaseUrl := graphDBUrl;
     auth := if truthy userName && truthy password
             then base64_encode
                    (utf8_encode (ToString userName ++ js ":" ++ ToString password))
             else [];
     cacher := cacher this |}.

(** [initCacheDB(redisUrl, redisPort, redisDB)].  The three arguments go
    to the constructor of the cache client; [client] is the object it
    returns. *)
Definition initCacheDB (redisUrl redisPort redisDB : JSValue) (client : Handle)
    (this : Neo4j) : Neo4j :=
  {| graphDatabaseUrl := graphDatabaseUrl this;
     auth := auth this;
     cacher := Some client |}.

(** [createTransaction()] as a method of the facade. *)
Definition createTransaction (this : Neo4j) : Transaction :=
  createTransaction (graphDatabaseUrl this) (auth this) (cacher this).

End Facade.

(** *** Reading base64 back *)

Definition base64_index (c : code_unit) : option N :=
  (if (65 <=? c) && (c <=? 90) then Some (c - 65)
   else if (97 <=? c) && (c <=? 122) then Some (c - 71)
   else if (48 <=? c) && (c <=? 57) then Some (c + 4)
   else if c =? 43 then Some 62
   else if c =? 47 then Some 63
   else None)%N.

(** The bytes a padded base64 text stands for. *)
Fixpoint base64_decode (s : jsstring) : list N :=
  match s with
  | c1 :: c2 :: c3 :: c4 :: rest =>
      match base64_index c1, base64_index c2, base64_index c3, base64_index c4 with
      | Some s1, Some s2, Some s3, Some s4 =>
          (s1 * 4 + s2 / 16)%N :: ((s2 mod 16) * 16 + s3 / 4)%N
            :: ((s3 mod 4) * 64 + s4)%N :: base64_decode rest
      | Some s1, Some s2, Some s3, None =>
          [(s1 * 4 + s2 / 16)%N; ((s2 mod 16) * 16 + s3 / 4)%N]
      | Some s1, Some s2, None, _ => [(s1 * 4 + s2 / 16)%N]
      | _, _, _, _ => []
      end
  | _ => []
  end.

(** *** Further sample worlds *)

(** A host that has defined a global [cacher] (object 7, not the client
    of the facade) whose cache holds the key. *)
Definition full_cache (h : Handle) (prefix key : JSValue) : Completion JSValue :=
  Normal sample_results.

Definition warm_world : Env :=
  {| global_cacher := Some 7; server := committing_server; cache_getData := full_cache |}.

(** A database whose answer to the batch cannot be parsed. *)
Definition garbled_server (earlier : list Request) (r : Request)
  : Completion Response :=
  Normal (mkResponse 200 (js "OK") (Throw (HostError (js "invalid json")))).

Definition garbled_world : Env :=
  {| global_cacher := None; server := garbled_server; cache_getData := empty_cache |}.

(** A database that cannot be reached. *)
Definition unreachable_server (earlier : list Request) (r : Request)
  : Completion Response :=
  Throw (HostError (js "ECONNREFUSED")).

Definition unreachable_world : Env :=
  {| global_cacher := None; server := unreachable_server; cache_getData := empty_cache |}.

(** A database that accepts the batch and answers the commit with 201. *)
Definition created_on_commit_server (earlier : list Request) (r : Request)
  : Completion Response :=
  match earlier with
  | [] => Normal (mkResponse 200 (js "OK")
                    (Normal (mkEnvelope sample_results [] sample_commit_url)))
  | _ => Normal (mkResponse 201 (js "Created") (Throw (HostError (js "empty body"))))
  end.

Definition created_on_commit_world : Env :=
  {| global_cacher := None; server := created_on_commit_server;
     cache_getData := empty_cache |}.

(** A database that accepts the batch and drops the connection on the
    commit. *)
Definition dropping_server (earlier : list Request) (r : Request)
  : Completion Response :=
  match earlier with
  | [] => Normal (mkResponse 200 (js "OK")
                    (Normal (mkEnvelope sample_results [] sample_commit_url)))
  | _ => Throw (HostError (js "ECONNRESET"))
  end.

Definition dropping_world : Env :=
  {| global_cacher := None; server := dropping_server; cache_getData := empty_cache |}.

(** *** Further vocabulary *)

(** The code units of a string that are not white space, in order. *)
Definition non_ws_units (s : jsstring) : jsstring :=
  filter (fun c => negb (is_ws c)) s.

(** A string such as [toString()] returns. *)
Definition rendered (s : jsstring) : Prop :=
  adj_free s /\ no_line_breaks s /\ no_outer_ws s.

Definition is_empty (s : jsstring) : bool :=
  match s with
  | [] => true
  | _ => false
  end.

(** A string without any white space. *)
Definition ws_free (s : jsstring) : Prop :=
  forall c, In c s -> is_ws c = false.

(** One clause of [toSets], without the indentation. *)
Definition set_clause (v objName k : jsstring) : jsstring :=
  js "SET " ++ v ++ js "." ++ k ++ js " = {" ++ objName ++ js "}." ++ k.

(** What [toSets] puts after its first newline: for each key a newline,
    two spaces and the clause. *)
Definition set_lines (v objName : jsstring) (ks : list jsstring) : jsstring :=
  flat_map (fun k => LF :: SPACE :: SPACE :: set_clause v objName k) ks.

(** The chain [t.addQuery(q1, p1).addQuery(q2, p2)...]. *)
Fixpoint addQuery_all (queries : list (QueryBuilder * JSValue)) (t : Transaction)
  : Completion Transaction :=
  match queries with
  | [] => Normal t
  | (qb, params) :: rest =>
      t' <- addQuery qb params t ;;
      addQuery_all rest t'
  end.

(** The statement an [addQuery] call records. *)
Definition statement_of (query : QueryBuilder * JSValue) : Statement :=
  mkStatement (toString (fst query)) (snd query).

(* ================================================================= *)
(** * Properties *)

(** ** Examples from the repository's tests *)

Example toString_two_adds :
  toString (fst (add_all [JStr (js "MATCH (s:Student)"); JStr (js "DELETE(s)")]
                   new_QueryBuilder))
  = js "MATCH (s:Student) DELETE(s)".
Proof. reflexivity. Qed.

Example toString_mixed_white_space :
  toString (fst (add_all [JStr (js "  a   b "); JStr [LF];
                          JStr [CR; LF; 99%N; TAB; 100%N]]
                   new_QueryBuilder))
  = js "a b cd".
Proof. vm_compute. reflexivity. Qed.

Example toProps_test :
  toProps [(js "name", JStr (js "Tim Jones")); (js "grade", JNum 9)]
  = Normal (js "name:" ++ [QUOTE] ++ js "Tim Jones" ++ [QUOTE] ++ js ", grade:9").
Proof. vm_compute. reflexivity. Qed.

Example toNamedProps_test :
  toNamedProps (js "student") [(js "name", JStr (js "Tim Jones")); (js "grade", JNum 9)]
  = js "name:{student}.name, grade:{student}.grade".
Proof. vm_compute. reflexivity. Qed.

(** ** The statement assembler *)

Section Rendering.

Lemma adj_free_cons (c : code_unit) (s : jsstring) :
  adj_free (c :: s) <->
  match s with [] => True | d :: _ => is_ws c && is_ws d = false end /\ adj_free s.
Proof. reflexivity. Qed.

Lemma adj_free_app_r (a b : jsstring) : adj_free (a ++ b) -> adj_free b.
Proof.
  induction a as [|x a IH]; simpl; trivial.
  intros [_ H]. auto.
Qed.

Lemma adj_free_app_l (a b : jsstring) : adj_free (a ++ b) -> adj_free a.
Proof.
  induction a as [|x a IH]; simpl; trivial.
  intros [Hh Ht]. split; [|auto].
  destruct a; simpl in *; trivial.
Qed.

(** While a match is consuming, nothing is emitted until a code unit
    that is not white space. *)
Lemma replace_in_match_head (s : jsstring) :
  match replace_ws_runs_from true s with
  | [] => True
  | d :: _ => is_ws d = false
  end.
Proof.
  induction s as [|c r IH]; simpl; trivial.
  destruct (is_ws c) eqn:E; trivial.
Qed.

Lemma replace_scan_head (c : code_unit) (r : jsstring) :
  is_ws c = false ->
  replace_ws_runs_from false (c :: r) = c :: replace_ws_runs_from false r.
Proof.
  intros E. simpl. rewrite E. destruct r; reflexivity.
Qed.

(** After [replace(/\s\s+/g, ' ')] no two white-space code units are
    neighbours. *)
Lemma replace_ws_runs_adj_free (s : jsstring) (in_match : bool) :
  adj_free (replace_ws_runs_from in_match s).
Proof.
  revert in_match.
  induction s as [|c r IH]; intros [|]; simpl; trivial.
  - destruct (is_ws c) eqn:E; [apply IH|].
    apply adj_free_cons. split; [|apply IH].
    destruct (replace_ws_runs_from false r); trivial.
    rewrite E. reflexivity.
  - destruct r as [|d r']; [simpl; auto|].
    destruct (is_ws c && is_ws d) eqn:E.
    + apply adj_free_cons. split; [|apply IH].
      pose proof (replace_in_match_head (d :: r')) as H.
      destruct (replace_ws_runs_from true (d :: r')); trivial.
    + apply adj_free_cons. split; [|apply IH].
      destruct (is_ws c) eqn:Ec.
      * simpl in E. rewrite (replace_scan_head d r' E). simpl. exact E.
      * destruct (replace_ws_runs_from false (d :: r')); trivial.
Qed.

(** The second [replace] deletes exactly the code units LF, CR, TAB. *)
Lemma remove_breaks_filter (s : jsstring) :
  remove_breaks s = filter (fun c => negb (is_break c)) s.
Proof.
  assert (H : forall n s, length s <= n ->
              remove_breaks s = filter (fun c => negb (is_break c)) s).
  { clear s. induction n as [|n IH]; intros [|c r] Hlen; simpl in *; trivial; try lia.
    destruct (c =? CR)%N eqn:Ecr.
    - assert (Hc : is_break c = true).
      { unfold is_break. rewrite Ecr. destruct (c =? LF)%N; reflexivity. }
      rewrite Hc. simpl.
      destruct r as [|d r']; trivial.
      destruct (d =? LF)%N eqn:Elf.
      + assert (Hd : is_break d = true) by (unfold is_break; rewrite Elf; reflexivity).
        simpl. rewrite Hd. simpl. apply IH. simpl in Hlen. lia.
      + apply IH. lia.
    - destruct ((c =? LF) || (c =? TAB))%N eqn:E2.
      + assert (Hc : is_break c = true).
        { unfold is_break. rewrite Ecr.
          destruct (c =? LF)%N, (c =? TAB)%N; simpl in *; congruence. }
        rewrite Hc. simpl. apply IH. lia.
      + assert (Hc : is_break c = false).
        { unfold is_break. rewrite Ecr.
          destruct (c =? LF)%N, (c =? TAB)%N; simpl in *; congruence. }
        rewrite Hc. simpl. f_equal. apply IH. lia. }
  apply (H (length s)). lia.
Qed.

Lemma is_break_ws (c : code_unit) : is_break c = true -> is_ws c = true.
Proof.
  unfold is_break, LF, CR, TAB. intros H.
  apply orb_true_iff in H. destruct H as [H|H].
  - apply orb_true_iff in H.
    destruct H as [H|H]; apply N.eqb_eq in H; subst; reflexivity.
  - apply N.eqb_eq in H; subst; reflexivity.
Qed.

(** Deleting white space from a string without neighbouring white
    space leaves it so. *)
Lemma adj_free_filter (f : code_unit -> bool) (s : jsstring) :
  (forall c, f c = false -> is_ws c = true) ->
  adj_free s -> adj_free (filter f s).
Proof.
  intros Hf. induction s as [|c r IH]; simpl; trivial.
  intros [Hh Ht]. destruct (f c) eqn:Efc; [|auto].
  apply adj_free_cons. split; [|auto].
  destruct (is_ws c) eqn:Ec.
  - destruct r as [|d r']; simpl; trivial.
    simpl in Hh.
    destruct (f d) eqn:Efd; [exact Hh|].
    apply Hf in Efd. rewrite Efd in Hh. discriminate.
  - destruct (filter f r); trivial.
Qed.

Lemma trim_start_suffix (s : jsstring) : exists w, s = w ++ trim_start s.
Proof.
  induction s as [|c r [w IH]]; simpl.
  - exists []. reflexivity.
  - destruct (is_ws c).
    + exists (c :: w). simpl. f_equal. exact IH.
    + exists []. reflexivity.
Qed.

Lemma trim_start_head (s : jsstring) (c : code_unit) (r : jsstring) :
  trim_start s = c :: r -> is_ws c = false.
Proof.
  induction s as [|x s IH]; simpl; [discriminate|].
  destruct (is_ws x) eqn:E; [exact IH|].
  intros H. injection H as -> _. exact E.
Qed.

Lemma trim_end_prefix (s : jsstring) : exists w, s = trim_end s ++ w.
Proof.
  induction s as [|c r [w IH]]; simpl.
  - exists []. reflexivity.
  - destruct (trim_end r) as [|y r'] eqn:E.
    + destruct (is_ws c).
      * exists (c :: r). reflexivity.
      * exists r. reflexivity.
    + exists w. simpl. f_equal. exact IH.
Qed.

Lemma trim_end_head (s : jsstring) (c : code_unit) (r : jsstring) :
  trim_end s = c :: r -> exists r', s = c :: r'.
Proof.
  destruct s as [|x s]; simpl; [discriminate|].
  destruct (trim_end s).
  - destruct (is_ws x); [discriminate|].
    intros H. injection H as -> _. eauto.
  - intros H. injection H as -> _. eauto.
Qed.

Lemma trim_end_last (s r : jsstring) (c : code_unit) :
  trim_end s = r ++ [c] -> is_ws c = false.
Proof.
  revert r. induction s as [|x s IH]; intros r; simpl.
  - destruct r; discriminate.
  - destruct (trim_end s) as [|y r'] eqn:E.
    + destruct (is_ws x) eqn:Ex.
      * destruct r; discriminate.
      * destruct r as [|z r]; simpl; intros H.
        -- injection H as <-. exact Ex.
        -- injection H as _ H. destruct r; discriminate.
    + destruct r as [|z r]; simpl; intros H; [discriminate|].
      injection H as _ H. apply (IH r). exact H.
Qed.

Lemma trim_adj_free (s : jsstring) : adj_free s -> adj_free (trim s).
Proof.
  intros H. unfold trim.
  destruct (trim_start_suffix s) as [w Hw].
  destruct (trim_end_prefix (trim_start s)) as [w' Hw'].
  rewrite Hw in H. apply adj_free_app_r in H.
  rewrite Hw' in H. apply adj_free_app_l in H. exact H.
Qed.

Lemma trim_incl (s : jsstring) (c : code_unit) : In c (trim s) -> In c s.
Proof.
  intros H. unfold trim in H.
  destruct (trim_start_suffix s) as [w Hw].
  destruct (trim_end_prefix (trim_start s)) as [w' Hw'].
  rewrite Hw, Hw'. apply in_or_app. right. apply in_or_app. left. exact H.
Qed.

Lemma trim_no_outer_ws (s : jsstring) : no_outer_ws (trim s).
Proof.
  split.
  - intros c r H. unfold trim in H.
    destruct (trim_end_head _ _ _ H) as [r' Hr'].
    apply (trim_start_head _ _ _ Hr').
  - intros r c H. unfold trim in H. apply (trim_end_last _ _ _ H).
Qed.

Lemma adj_free_no_double_space (s : jsstring) : adj_free s -> no_double_space s.
Proof.
  intros H a b ->. apply adj_free_app_r in H.
  simpl in H. destruct H as [H _]. discriminate.
Qed.

Lemma remove_breaks_clean (s : jsstring) (c : code_unit) :
  In c (remove_breaks s) -> is_break c = false.
Proof.
  rewrite remove_breaks_filter. intros H.
  apply filter_In in H. destruct H as [_ H].
  apply negb_true_iff. exact H.
Qed.

(** Whatever the builder holds, its rendering is clean. *)
Lemma toString_clean (qb : QueryBuilder) :
  no_line_breaks (toString qb) /\
  no_double_space (toString qb) /\
  no_outer_ws (toString qb).
Proof.
  unfold toString.
  set (joined := Array_join (js " ") (q qb)).
  split; [|split].
  - repeat split; intros H; apply trim_incl, remove_breaks_clean in H; discriminate.
  - apply adj_free_no_double_space, trim_adj_free.
    rewrite remove_breaks_filter. apply adj_free_filter.
    + intros c Hc. apply is_break_ws. apply negb_false_iff. exact Hc.
    + apply replace_ws_runs_adj_free.
  - apply trim_no_outer_ws.
Qed.

End Rendering.


Section Adding.

(** Induction on fragment trees, with the hypothesis available for every
    member of a sequence. *)
Lemma Fragments_nested_ind (P : Fragments -> Prop) :
  (forall s, P (Fragment s)) ->
  (forall l, Forall P l -> P (Sequence l)) ->
  forall f, P f.
Proof.
  intros Hs Hl.
  fix IH 1.
  intros [s|l].
  - apply Hs.
  - apply Hl. induction l as [|x l IHl]; constructor.
    + apply IH.
    + exact IHl.
Qed.

Lemma add_q_array (elems acc : list JSValue) :
  add_q (JArr elems) acc = add_each elems acc.
Proof.
  revert acc. induction elems as [|e r IH]; intros acc; [reflexivity|].
  simpl. destruct (add_q e acc) as [acc' [x|]]; [reflexivity|].
  apply IH.
Qed.

(** [add] on a fragment tree appends its strings, left to right, at
    whatever depth they sit. *)
Lemma add_q_value_of (f : Fragments) :
  forall acc, add_q (value_of f) acc = (acc ++ map JStr (flatten f), None).
Proof.
  induction f as [s|l IHl] using Fragments_nested_ind; intros acc; [reflexivity|].
  simpl value_of. rewrite add_q_array. simpl flatten.
  revert acc. induction IHl as [|x l Hx _ IH]; intros acc; simpl.
  - rewrite app_nil_r. reflexivity.
  - rewrite Hx, IH, map_app, app_assoc. reflexivity.
Qed.

Lemma add_all_values (parts : list Fragments) :
  forall qb,
    add_all (map value_of parts) qb
    = (mkQueryBuilder (q qb ++ map JStr (flat_map flatten parts)), None).
Proof.
  induction parts as [|f parts IH]; intros [acc]; simpl.
  - rewrite app_nil_r. reflexivity.
  - unfold add. simpl. rewrite add_q_value_of, IH. simpl.
    rewrite map_app, app_assoc. reflexivity.
Qed.

End Adding.

(** C7. For every sequence of string fragments added to a new query
    builder (each call [add(fragment)] succeeds and the builder holds the
    fragments in order), the string [toString()] renders contains no
    newline, carriage return or tab, contains no two consecutive spaces,
    and neither begins nor ends with white space. *)
Theorem toString_rendering_is_clean :
  forall fragments : list jsstring,
    add_all (map JStr fragments) new_QueryBuilder
      = (mkQueryBuilder (map JStr fragments), None) /\
    no_line_breaks (toString (mkQueryBuilder (map JStr fragments))) /\
    no_double_space (toString (mkQueryBuilder (map JStr fragments))) /\
    no_outer_ws (toString (mkQueryBuilder (map JStr fragments))).
Proof.
  intros fragments. split; [|apply toString_clean].
  assert (E : map JStr fragments = map value_of (map Fragment fragments))
    by (rewrite map_map; reflexivity).
  assert (F : flat_map flatten (map Fragment fragments) = fragments).
  { induction fragments as [|s l IH]; simpl; [reflexivity|].
    f_equal. apply IH. rewrite map_map. reflexivity. }
  rewrite E at 1. rewrite add_all_values, F. reflexivity.
Qed.

(** C8, a nested sequence. A sequence that contains a sequence is taken:
    [add([["MATCH (n)"], "RETURN n"])] on a new builder leaves the two
    strings in [q], where flattening by one level would have left the
    inner array as an element. *)
Lemma add_nested_sequence_is_flattened :
  add (JArr [JArr [JStr (js "MATCH (n)")]; JStr (js "RETURN n")]) new_QueryBuilder
    = (mkQueryBuilder [JStr (js "MATCH (n)"); JStr (js "RETURN n")], None) /\
  add (JArr [JArr [JStr (js "MATCH (n)")]; JStr (js "RETURN n")]) new_QueryBuilder
    <> add_one_level (JArr [JArr [JStr (js "MATCH (n)")]; JStr (js "RETURN n")])
         new_QueryBuilder.
Proof.
  split; [reflexivity|].
  vm_compute. intros H. discriminate H.
Qed.

(** C8, all levels. [add] accepts a single string fragment or a sequence
    whose members are string fragments or further sequences, nested to
    any depth: the strings are appended to the builder's list in order,
    left to right, each as it is, and the call does not throw. *)
Theorem add_flattens_every_level :
  forall (f : Fragments) (qb : QueryBuilder),
    add (value_of f) qb
    = (mkQueryBuilder (q qb ++ map JStr (flatten f)), None).
Proof.
  intros f [acc]. unfold add. simpl. rewrite add_q_value_of. reflexivity.
Qed.

(** ** The transaction *)

Section Protocol.

Variable env : Env.

Lemma this_after_processTransaction (t : Transaction) (tr : list Event) :
  this_after (_processTransaction env t tr) = set_used t.
Proof.
  unfold _processTransaction, _processTransaction_call.
  destruct (_processTransaction_callbacks env (set_used t) _ _). reflexivity.
Qed.

(** [execute()] either leaves the object alone or hands it to
    [_processTransaction]. *)
Lemma this_after_execute (t : Transaction) :
  this_after (execute env t) = if begins_protocol env t then set_used t else t.
Proof.
  unfold execute, begins_protocol.
  destruct (cached t); [|apply this_after_processTransaction].
  destruct (global_cacher env) as [g|]; [|reflexivity].
  destruct (cache_getData env g (cachePrefix t) (cacheKey t)); [reflexivity|].
  apply this_after_processTransaction.
Qed.

(** When [execute()] reaches the protocol, the run is that of
    [_processTransaction] after the preamble. *)
Lemma execute_begins_protocol (t : Transaction) :
  begins_protocol env t = true ->
  execute env t = _processTransaction env t (preamble env t).
Proof.
  unfold execute, begins_protocol, preamble.
  destruct (cached t); [|reflexivity].
  destruct (global_cacher env) as [g|]; [|discriminate].
  destruct (cache_getData env g (cachePrefix t) (cacheKey t)) as [v|reason];
    [discriminate|reflexivity].
Qed.

Lemma requests_of_preamble (t : Transaction) : requests_of (preamble env t) = [].
Proof.
  unfold preamble.
  destruct (cached t); [|reflexivity].
  destruct (global_cacher env) as [g|]; [|reflexivity].
  destruct (cache_getData env g (cachePrefix t) (cacheKey t)); reflexivity.
Qed.

Lemma preamble_no_SetData (t : Transaction) :
  existsb is_SetData (preamble env t) = false.
Proof.
  unfold preamble.
  destruct (cached t); [|reflexivity].
  destruct (global_cacher env) as [g|]; [|reflexivity].
  destruct (cache_getData env g (cachePrefix t) (cacheKey t)); reflexivity.
Qed.

Lemma execute_stops_before_protocol (t : Transaction) :
  begins_protocol env t = false ->
  requests_of (trace (execute env t)) = [] /\
  this_after (execute env t) = t.
Proof.
  unfold execute, begins_protocol.
  destruct (cached t); [|discriminate].
  destruct (global_cacher env) as [g|]; [|split; reflexivity].
  destruct (cache_getData env g (cachePrefix t) (cacheKey t)); [|discriminate].
  split; reflexivity.
Qed.

Lemma requests_of_app (a b : list Event) :
  requests_of (a ++ b) = requests_of a ++ requests_of b.
Proof.
  induction a as [|[r| | | |] a IH]; simpl; trivial.
  f_equal. exact IH.
Qed.

Lemma existsb_SetData_app (a b : list Event) :
  existsb is_SetData (a ++ b) = existsb is_SetData a || existsb is_SetData b.
Proof. apply existsb_app. Qed.

(** The batch is answered with a status other than 200 and 201. *)
Lemma processTransaction_bad_status (t : Transaction) (tr : list Event) (res : Response) :
  server env (requests_of tr) (batch_request t) = Normal res ->
  status res <> HTTP_OK -> status res <> HTTP_CREATED ->
  _processTransaction env t tr
  = {| this_after := set_used t;
       trace := tr ++ [Fetch (batch_request t); Fetch (rollback_request t)];
       settled := Rejected (Error (statusText res)) |}.
Proof.
  intros Hres Hok Hcreated.
  unfold _processTransaction, _processTransaction_call, _processTransaction_callbacks.
  rewrite Hres. unfold and_then, lift, on_batch_response.
  apply Z.eqb_neq in Hok, Hcreated. rewrite Hok, Hcreated. simpl.
  unfold and_then, fetch_detached, emit, throw. simpl.
  rewrite <- app_assoc. reflexivity.
Qed.

(** The batch is accepted and the body lists errors. *)
Lemma processTransaction_cypher_errors (t : Transaction) (tr : list Event)
    (res : Response) (body : Envelope) :
  server env (requests_of tr) (batch_request t) = Normal res ->
  status res = HTTP_OK \/ status res = HTTP_CREATED ->
  json res = Normal body ->
  errors body <> [] ->
  _processTransaction env t tr
  = {| this_after := set_used t;
       trace := tr ++ [Fetch (batch_request t)];
       settled := Rejected (Raised (JArr (errors body))) |}.
Proof.
  intros Hres Hstatus Hjson Herrors.
  unfold _processTransaction, _processTransaction_call, _processTransaction_callbacks.
  rewrite Hres. unfold and_then, lift, on_batch_response.
  assert (Hs : negb (status res =? HTTP_OK)%Z && negb (status res =? HTTP_CREATED)%Z = false).
  { destruct Hstatus as [-> | ->]; reflexivity. }
  rewrite Hs, Hjson. unfold lift, on_batch_json. cbv beta iota.
  destruct (errors body) as [|e es]; [contradiction|].
  reflexivity.
Qed.

(** The batch is accepted without errors and the commit is answered. *)
Lemma processTransaction_commit (t : Transaction) (tr : list Event)
    (res : Response) (body : Envelope) (res2 : Response) :
  server env (requests_of tr) (batch_request t) = Normal res ->
  status res = HTTP_OK \/ status res = HTTP_CREATED ->
  json res = Normal body ->
  errors body = [] ->
  server env (requests_of tr ++ [batch_request t]) (commit_request t (commit body))
    = Normal res2 ->
  _processTransaction env t tr
  = let (tr', c) :=
      on_commit_response env (set_used t) (results body) res2
        (tr ++ [Fetch (batch_request t); Fetch (commit_request t (commit body))]) in
    {| this_after := set_used t; trace := tr'; settled := settle c |}.
Proof.
  intros Hres Hstatus Hjson Herrors Hres2.
  unfold _processTransaction, _processTransaction_call, _processTransaction_callbacks.
  rewrite Hres. unfold and_then, lift, on_batch_response.
  assert (Hs : negb (status res =? HTTP_OK)%Z && negb (status res =? HTTP_CREATED)%Z = false).
  { destruct Hstatus as [-> | ->]; reflexivity. }
  rewrite Hs, Hjson. unfold lift, on_batch_json. cbv beta iota.
  rewrite Herrors. simpl.
  unfold and_then, fetch, pure.
  rewrite requests_of_app. simpl requests_of.
  change (commit_request (set_used t)) with (commit_request t).
  rewrite Hres2. simpl. rewrite <- app_assoc. reflexivity.
Qed.

(** A transaction whose [cachable] property is not truthy never calls
    [setData]. *)
Lemma processTransaction_no_SetData (t : Transaction) (tr : list Event) :
  truthy (cachable t) = false ->
  existsb is_SetData (trace (_processTransaction env t tr)) = existsb is_SetData tr.
Proof.
  intros Hc.
  unfold _processTransaction, _processTransaction_call, _processTransaction_callbacks.
  unfold and_then, lift.
  destruct (server env (requests_of tr) (batch_request t)) as [res|e]; simpl.
  2:{ rewrite existsb_SetData_app. simpl. apply orb_false_r. }
  unfold on_batch_response.
  destruct (negb (status res =? HTTP_OK)%Z && negb (status res =? HTTP_CREATED)%Z); simpl.
  { unfold and_then, fetch_detached, emit, throw. simpl.
    rewrite !existsb_SetData_app. simpl. rewrite !orb_false_r. reflexivity. }
  unfold lift.
  destruct (json res) as [body|e]; simpl.
  2:{ rewrite existsb_SetData_app. simpl. apply orb_false_r. }
  unfold on_batch_json.
  destruct (0 <? Z.of_nat (length (errors body)))%Z; simpl.
  { unfold throw. simpl. rewrite existsb_SetData_app. simpl. apply orb_false_r. }
  unfold and_then, fetch, pure.
  destruct (server env _ (commit_request (set_used t) (commit body))) as [res2|e]; simpl.
  2:{ rewrite !existsb_SetData_app. simpl. rewrite !orb_false_r. reflexivity. }
  unfold on_commit_response.
  change (cachable (set_used t)) with (cachable t). rewrite Hc. unfold pure, throw.
  destruct (status res2 =? HTTP_OK)%Z; simpl;
    rewrite !existsb_SetData_app; simpl; rewrite !orb_false_r; reflexivity.
Qed.

(** Every run of [_processTransaction] sends the batch first. *)
Lemma processTransaction_sends_batch (t : Transaction) (tr : list Event) :
  exists more,
    requests_of (trace (_processTransaction env t tr))
    = requests_of tr ++ batch_request t :: more.
Proof.
  unfold _processTransaction, _processTransaction_call, _processTransaction_callbacks.
  unfold and_then, lift.
  destruct (server env (requests_of tr) (batch_request t)) as [res|e]; simpl.
  2:{ exists []. apply requests_of_app. }
  unfold on_batch_response.
  destruct (negb (status res =? HTTP_OK)%Z && negb (status res =? HTTP_CREATED)%Z); simpl.
  { unfold and_then, fetch_detached, emit, throw. simpl.
    exists [rollback_request (set_used t)]. rewrite !requests_of_app, <- app_assoc.
    reflexivity. }
  unfold lift.
  destruct (json res) as [body|e]; simpl.
  2:{ exists []. apply requests_of_app. }
  unfold on_batch_json.
  destruct (0 <? Z.of_nat (length (errors body)))%Z; simpl.
  { exists []. apply requests_of_app. }
  unfold and_then, fetch, pure.
  destruct (server env _ (commit_request (set_used t) (commit body))) as [res2|e]; simpl.
  2:{ exists [commit_request (set_used t) (commit body)].
      rewrite !requests_of_app, <- app_assoc. reflexivity. }
  exists [commit_request (set_used t) (commit body)].
  unfold on_commit_response.
  destruct (status res2 =? HTTP_OK)%Z; [|simpl; rewrite !requests_of_app, <- app_assoc; reflexivity].
  destruct (truthy (cachable (set_used t)));
    [|simpl; rewrite !requests_of_app, <- app_assoc; reflexivity].
  destruct (cacher (set_used t));
    [|simpl; rewrite !requests_of_app, <- app_assoc; reflexivity].
  destruct (global_cacher env);
    unfold and_then, emit, pure, throw; simpl;
    rewrite !requests_of_app, <- ?app_assoc; simpl; rewrite ?app_nil_r; reflexivity.
Qed.

(** [execute()] sends a request exactly when it reaches the protocol,
    and then the batch is the first one. *)
Lemma execute_sends_batch_iff (t : Transaction) :
  (begins_protocol env t = true ->
   exists more, requests_of (trace (execute env t)) = batch_request t :: more) /\
  (begins_protocol env t = false -> requests_of (trace (execute env t)) = []).
Proof.
  split; intros Hb.
  - rewrite (execute_begins_protocol t Hb).
    destruct (processTransaction_sends_batch t (preamble env t)) as [more H].
    exists more. rewrite H, requests_of_preamble. reflexivity.
  - apply execute_stops_before_protocol, Hb.
Qed.

End Protocol.

Section SingleUse.

Lemma used_set_used (t : Transaction) : used (set_used t) = true.
Proof. reflexivity. Qed.

Lemma addQuery_used (qb : QueryBuilder) (params : JSValue) (t : Transaction) :
  used t = true ->
  addQuery qb params t = Throw (Error (js "Can't reuse transaction")).
Proof. unfold addQuery. intros ->. reflexivity. Qed.

(** No call on the object clears [used]. *)
Lemma used_after_call (t : Transaction) (c : Call) :
  used t = true -> used (after_call t c) = true.
Proof.
  intros H. destruct c as [qb params|prefix key duration|env]; simpl.
  - rewrite (addQuery_used qb params t H). exact H.
  - unfold cacheable. destruct (cacher t); exact H.
  - rewrite this_after_execute. destruct (begins_protocol env t); [reflexivity|exact H].
Qed.

Lemma used_after_calls (calls : list Call) :
  forall t, used t = true -> used (after_calls calls t) = true.
Proof.
  unfold after_calls.
  induction calls as [|c calls IH]; intros t H; simpl; [exact H|].
  apply IH, used_after_call, H.
Qed.

(** No call on the object assigns [cachable]. *)
Lemma cachable_after_call (t : Transaction) (c : Call) :
  cachable (after_call t c) = cachable t.
Proof.
  destruct c as [qb params|prefix key duration|env]; simpl.
  - unfold addQuery. destruct (used t); reflexivity.
  - unfold cacheable. destruct (cacher t); reflexivity.
  - rewrite this_after_execute. destruct (begins_protocol env t); reflexivity.
Qed.

Lemma cachable_after_calls (calls : list Call) :
  forall t, cachable (after_calls calls t) = cachable t.
Proof.
  unfold after_calls.
  induction calls as [|c calls IH]; intros t; simpl; [reflexivity|].
  rewrite IH. apply cachable_after_call.
Qed.

End SingleUse.

(** C1. A transaction is single-use.  When the call of
    [_processTransaction] returns -- the batch request issued, no
    callback run, so before any response -- [used] is true; the object
    the run ends with is that same object whatever the server answers;
    after [execute()], [used] is true exactly if the protocol began or
    the object was used already; and after any further calls on the
    object, [addQuery] throws the error "Can't reuse transaction". *)
Theorem transaction_is_single_use :
  forall (t : Transaction) (tr : list Event),
    used (fst (_processTransaction_call t tr)) = true /\
    snd (_processTransaction_call t tr) = tr ++ [Fetch (batch_request t)] /\
    (forall env,
        this_after (_processTransaction env t tr) = fst (_processTransaction_call t tr)) /\
    (forall env,
        used (this_after (execute env t)) = begins_protocol env t || used t) /\
    (forall calls qb params,
        addQuery qb params (after_calls calls (fst (_processTransaction_call t tr)))
        = Throw (Error (js "Can't reuse transaction"))).
Proof.
  intros t tr. repeat split.
  - intros env. apply this_after_processTransaction.
  - intros env. rewrite this_after_execute.
    destruct (begins_protocol env t); reflexivity.
  - intros calls qb params. apply addQuery_used, used_after_calls. reflexivity.
Qed.

Section CacheFirst.

Variable env : Env.
Variable t : Transaction.
Hypothesis Hcached : cached t = true.

(** With no binding for [cacher], the executor throws at its first
    statement. *)
Lemma execute_cached_unbound_cacher :
  global_cacher env = None ->
  execute env t
  = {| this_after := t; trace := []; settled := Rejected (ReferenceError (js "cacher")) |}.
Proof. unfold execute. rewrite Hcached. intros ->. reflexivity. Qed.

(** With a global [cacher], the read goes through that object. *)
Lemma execute_cache_hit (g : Handle) (cachedData : JSValue) :
  global_cacher env = Some g ->
  cache_getData env g (cachePrefix t) (cacheKey t) = Normal cachedData ->
  execute env t
  = {| this_after := t;
       trace := [SetCachePrefix g (cachePrefix t); GetData g (cacheKey t)];
       settled := Resolved cachedData |}.
Proof. unfold execute. rewrite Hcached. intros -> ->. reflexivity. Qed.

Lemma execute_cache_miss (g : Handle) (reason : Thrown) :
  global_cacher env = Some g ->
  cache_getData env g (cachePrefix t) (cacheKey t) = Throw reason ->
  execute env t
  = _processTransaction env t
      [SetCachePrefix g (cachePrefix t); GetData g (cacheKey t); ConsoleLog reason].
Proof. unfold execute. rewrite Hcached. intros -> ->. reflexivity. Qed.

End CacheFirst.

(** C2, as the code runs. A transaction of a facade with a
    cache client, marked with [cacheable("students", "all", 60)] and
    executed where no global [cacher] exists: the promise is rejected
    with a ReferenceError, no cache read is made and no request is
    sent. *)
Lemma execute_cached_without_global_cacher :
  cacheable (JStr (js "students")) (JStr (js "all")) (JNum 60) sample_transaction
    = Normal sample_cached_transaction /\
  execute plain_world sample_cached_transaction
    = {| this_after := sample_cached_transaction;
         trace := [];
         settled := Rejected (ReferenceError (js "cacher")) |}.
Proof. split; reflexivity. Qed.

Section Commit.

(** X15. A transaction built through the class -- constructed, then
    used through [addQuery], [cacheable] and [execute] in any order and
    any environment -- never calls [setData]: [cachable] stays
    [undefined] on it, so nothing is ever written to the cache. *)
Lemma built_transaction_never_writes_cache
    (transactionUrl auth : jsstring) (cacher : option Handle)
    (calls : list Call) (env : Env) :
  existsb is_SetData
    (trace (execute env (after_calls calls (new_Transaction transactionUrl auth cacher))))
  = false.
Proof.
  set (t := after_calls calls (new_Transaction transactionUrl auth cacher)).
  assert (Hc : truthy (cachable t) = false).
  { unfold t. rewrite cachable_after_calls. reflexivity. }
  destruct (begins_protocol env t) eqn:Hb.
  - rewrite (execute_begins_protocol env t Hb).
    rewrite processTransaction_no_SetData; [apply preamble_no_SetData|assumption].
  - revert Hb. unfold execute, begins_protocol.
    destruct (cached t); [|discriminate].
    destruct (global_cacher env) as [g|]; [|reflexivity].
    destruct (cache_getData env g (cachePrefix t) (cacheKey t)); [reflexivity|discriminate].
Qed.

(** X14. When [execute()] reaches the protocol, the batch is answered
    with 200 or 201 and no errors, and the commit is answered with 200,
    a transaction whose [cachable] is not truthy -- every transaction
    the class builds -- is resolved with [results] of the first answer
    as it came, and the batch and the commit are all that was sent. *)
Lemma successful_commit_resolves_with_results
    (env : Env) (t : Transaction) (res : Response) (body : Envelope) (res2 : Response) :
  begins_protocol env t = true ->
  truthy (cachable t) = false ->
  server env [] (batch_request t) = Normal res ->
  status res = HTTP_OK \/ status res = HTTP_CREATED ->
  json res = Normal body ->
  errors body = [] ->
  server env [batch_request t] (commit_request t (commit body)) = Normal res2 ->
  status res2 = HTTP_OK ->
  settled (execute env t) = Resolved (results body) /\
  requests_of (trace (execute env t))
    = [batch_request t; commit_request t (commit body)].
Proof.
  intros Hb Hc Hres Hstatus Hjson Herrors Hres2 Hstatus2.
  rewrite (execute_begins_protocol env t Hb).
  rewrite (processTransaction_commit env t (preamble env t) res body res2);
    try assumption; try (rewrite requests_of_preamble; assumption).
  unfold on_commit_response.
  change (cachable (set_used t)) with (cachable t).
  rewrite Hstatus2, Hc. simpl.
  rewrite requests_of_app, requests_of_preamble. split; reflexivity.
Qed.

End Commit.

(** C3, as the code runs. In a host that defines a global
    [cacher] with an empty cache, a transaction marked cacheable whose
    batch is accepted with 201 and no errors and whose commit is answered
    with 200: the promise is resolved with the results, and the trace
    has the cache read, the two requests, and no call of [setData]. *)
Lemma execute_commit_without_cache_write :
  settled (execute global_cacher_world sample_cached_transaction)
    = Resolved sample_results /\
  trace (execute global_cacher_world sample_cached_transaction)
    = [ SetCachePrefix 0 (JStr (js "students"));
        GetData 0 (JStr (js "all"));
        ConsoleLog (HostError (js "no data"));
        Fetch (batch_request sample_cached_transaction);
        Fetch (commit_request sample_cached_transaction sample_commit_url) ] /\
  existsb is_SetData (trace (execute global_cacher_world sample_cached_transaction))
    = false.
Proof. repeat split; reflexivity. Qed.

(** C4. When [execute()] reaches the protocol and the batch POST is
    answered with a status other than 200 and 201, a DELETE to the same
    URL is issued after it and the promise is rejected with an [Error]
    whose message is the status text of that answer.  Nothing is assumed
    about the answer to the DELETE, and replacing it by any other leaves
    the run the same. *)
Theorem failed_batch_is_rolled_back :
  forall (env : Env) (t : Transaction) (res : Response),
    begins_protocol env t = true ->
    server env [] (batch_request t) = Normal res ->
    status res <> HTTP_OK ->
    status res <> HTTP_CREATED ->
    settled (execute env t) = Rejected (Error (statusText res)) /\
    requests_of (trace (execute env t)) = [batch_request t; rollback_request t] /\
    url (rollback_request t) = url (batch_request t) /\
    method (rollback_request t) = js "delete" /\
    (forall answer : Completion Response,
        execute (answer_second_request env answer) t = execute env t).
Proof.
  intros env t res Hb Hres Hok Hcreated.
  assert (Hrun : forall e,
             begins_protocol e t = true ->
             server e [] (batch_request t) = Normal res ->
             execute e t
             = {| this_after := set_used t;
                  trace := preamble e t
                           ++ [Fetch (batch_request t); Fetch (rollback_request t)];
                  settled := Rejected (Error (statusText res)) |}).
  { intros e Hbe Hs. rewrite (execute_begins_protocol e t Hbe).
    apply processTransaction_bad_status; try assumption.
    rewrite requests_of_preamble. exact Hs. }
  rewrite (Hrun env Hb Hres). simpl.
  rewrite requests_of_app, requests_of_preamble. repeat split.
  intros answer. apply (Hrun (answer_second_request env answer)).
  - exact Hb.
  - exact Hres.
Qed.

(** C4 at a database that answers 404 "Not Found". *)
Lemma failed_batch_is_rolled_back_witness :
  begins_protocol missing_world sample_transaction = true /\
  settled (execute missing_world sample_transaction)
    = Rejected (Error (js "Not Found")) /\
  requests_of (trace (execute missing_world sample_transaction))
    = [batch_request sample_transaction; rollback_request sample_transaction].
Proof.
  split; [reflexivity|].
  assert (Hok : 404%Z <> HTTP_OK) by (unfold HTTP_OK; lia).
  assert (Hcreated : 404%Z <> HTTP_CREATED) by (unfold HTTP_CREATED; lia).
  destruct (failed_batch_is_rolled_back missing_world sample_transaction
              (mkResponse 404 (js "Not Found") (Throw (HostError (js "not JSON"))))
              eq_refl eq_refl Hok Hcreated) as (H1 & H2 & _).
  split; [exact H1|exact H2].
Defined.

(** C5. When [execute()] reaches the protocol, the batch POST is
    answered with 200 or 201 and the parsed body has a non-empty
    [errors] array, the promise is rejected with that very array, and
    the batch POST is the only request sent: no POST to the commit URL
    (and no DELETE). *)
Theorem cypher_errors_reject_without_commit :
  forall (env : Env) (t : Transaction) (res : Response) (body : Envelope),
    begins_protocol env t = true ->
    server env [] (batch_request t) = Normal res ->
    status res = HTTP_OK \/ status res = HTTP_CREATED ->
    json res = Normal body ->
    errors body <> [] ->
    settled (execute env t) = Rejected (Raised (JArr (errors body))) /\
    requests_of (trace (execute env t)) = [batch_request t] /\
    ~ In (commit_request t (commit body)) (requests_of (trace (execute env t))).
Proof.
  intros env t res body Hb Hres Hstatus Hjson Herrors.
  rewrite (execute_begins_protocol env t Hb).
  rewrite (processTransaction_cypher_errors env t (preamble env t) res body);
    try assumption; try (rewrite requests_of_preamble; assumption).
  simpl. rewrite requests_of_app, requests_of_preamble. simpl.
  repeat split.
  intros [H|[]]. discriminate H.
Qed.

(** C5 at a database that answers 200 with [errors: [{code: "X"}]]. *)
Lemma cypher_errors_reject_without_commit_witness :
  begins_protocol failing_world sample_transaction = true /\
  settled (execute failing_world sample_transaction)
    = Rejected (Raised (JArr [JObj [(js "code", JStr (js "X"))]])) /\
  requests_of (trace (execute failing_world sample_transaction))
    = [batch_request sample_transaction].
Proof.
  split; [reflexivity|].
  assert (Herrors : [JObj [(js "code", JStr (js "X"))]] <> []) by discriminate.
  destruct (cypher_errors_reject_without_commit failing_world sample_transaction
              (mkResponse 200 (js "OK")
                 (Normal (mkEnvelope (JArr []) [JObj [(js "code", JStr (js "X"))]]
                            sample_commit_url)))
              (mkEnvelope (JArr []) [JObj [(js "code", JStr (js "X"))]] sample_commit_url)
              eq_refl eq_refl (or_introl eq_refl) eq_refl Herrors) as (H1 & H2 & _).
  split; [exact H1|exact H2].
Defined.

(** ** The response helper *)

Section SimpleData.

Lemma jsstring_eqb_refl (s : jsstring) : jsstring_eqb s s = true.
Proof.
  unfold jsstring_eqb. destruct (list_eq_dec N.eq_dec s s); [reflexivity|contradiction].
Qed.

Lemma Get_length_array (l : list JSValue) :
  Get (JArr l) (js "length") = Normal (JNum (Z.of_nat (length l))).
Proof. reflexivity. Qed.

Lemma length_is_zero (l : list JSValue) :
  strict_eq_num (JNum (Z.of_nat (length l))) 0 = match l with [] => true | _ => false end.
Proof. destruct l; reflexivity. Qed.

Lemma length_is_one (l : list JSValue) :
  strict_eq_num (JNum (Z.of_nat (length l))) 1 = (length l =? 1)%nat.
Proof.
  unfold strict_eq_num.
  destruct (Z.eqb_spec (Z.of_nat (length l)) 1), (Nat.eqb_spec (length l) 1);
    trivial; lia.
Qed.

(** [getSimpleData] up to the test on the number of columns, for a first
    entry that is an object with a non-empty [data] array and a
    [columns] array. *)
Lemma getSimpleData_rows
    (props : list (jsstring * JSValue)) (rest data_rest columns : list JSValue)
    (row : JSValue) :
  lookup (js "data") props = Some (JArr (row :: data_rest)) ->
  lookup (js "columns") props = Some (JArr columns) ->
  getSimpleData (JArr (JObj props :: rest))
  = if (length columns =? 1)%nat then
      if jsstring_eqb (typeof row) (js "object")
      then bind (Get row (js "row")) (fun r => GetIndex r 0)
      else GetIndex row 0
    else Normal JNull.
Proof.
  intros Hd Hc. unfold getSimpleData.
  cbn [GetIndex Get nth bind truthy negb]. rewrite Hd.
  cbn [bind truthy negb]. rewrite Get_length_array, Hc.
  cbn [bind]. rewrite length_is_zero, Get_length_array.
  cbn [bind]. rewrite length_is_one.
  reflexivity.
Qed.

(** The first entry is missing. *)
Lemma getSimpleData_no_entry : getSimpleData (JArr []) = Normal JNull.
Proof. reflexivity. Qed.

(** The first entry has no [data] property. *)
Lemma getSimpleData_no_data (props : list (jsstring * JSValue)) (rest : list JSValue) :
  lookup (js "data") props = None ->
  getSimpleData (JArr (JObj props :: rest)) = Normal JNull.
Proof.
  intros H. unfold getSimpleData.
  cbn [GetIndex Get nth bind truthy negb]. rewrite H. reflexivity.
Qed.

(** The first entry has an empty [data] array. *)
Lemma getSimpleData_no_rows (props : list (jsstring * JSValue)) (rest : list JSValue) :
  lookup (js "data") props = Some (JArr []) ->
  getSimpleData (JArr (JObj props :: rest)) = Normal JNull.
Proof.
  intros H. unfold getSimpleData.
  cbn [GetIndex Get nth bind truthy negb]. rewrite H. reflexivity.
Qed.

(** X19. One column and a first row of the shape [{row: [...]}]: the
    result is the first cell of that row ([undefined] if the row is
    empty), whatever the further rows and the further entries of the
    results are. *)
Lemma getSimpleData_wrapped_row
    (props row_props : list (jsstring * JSValue)) (rest data_rest cells : list JSValue)
    (column : JSValue) :
  lookup (js "data") props = Some (JArr (JObj row_props :: data_rest)) ->
  lookup (js "columns") props = Some (JArr [column]) ->
  lookup (js "row") row_props = Some (JArr cells) ->
  getSimpleData (JArr (JObj props :: rest)) = Normal (nth 0 cells JUndefined).
Proof.
  intros Hd Hc Hr. rewrite (getSimpleData_rows _ _ _ _ _ Hd Hc).
  cbn [length Nat.eqb typeof Get]. rewrite jsstring_eqb_refl, Hr. reflexivity.
Qed.

(** One column and a first row that is a bare array: the test
    [typeof data[0] === 'object'] holds for an array too, so [.row] is
    read from it and indexing the [undefined] it gives throws. *)
Lemma getSimpleData_bare_row
    (props : list (jsstring * JSValue)) (rest data_rest cells : list JSValue)
    (column : JSValue) :
  lookup (js "data") props = Some (JArr (JArr cells :: data_rest)) ->
  lookup (js "columns") props = Some (JArr [column]) ->
  getSimpleData (JArr (JObj props :: rest)) = Throw TypeError.
Proof.
  intros Hd Hc. rewrite (getSimpleData_rows _ _ _ _ _ Hd Hc). reflexivity.
Qed.

End SimpleData.

(** C6, as the code runs. On
    [[{columns: ["n"], data: [[42]]}]], one column and a first row in
    the bare-array shape, [getSimpleData] throws a TypeError; on the
    same result with the row as [{row: [42]}] it returns 42. *)
Lemma getSimpleData_bare_array_row_throws :
  getSimpleData
    (JArr [JObj [(js "columns", JArr [JStr (js "n")]);
                 (js "data", JArr [JArr [JNum 42]])]])
    = Throw TypeError /\
  getSimpleData
    (JArr [JObj [(js "columns", JArr [JStr (js "n")]);
                 (js "data", JArr [JObj [(js "row", JArr [JNum 42])]])]])
    = Normal (JNum 42).
Proof. split; reflexivity. Qed.

(** C10. When the first entry of the results is an object whose [data]
    is a non-empty array and whose [columns] is an array of a length
    other than 1, [getSimpleData] returns [null], whatever the data rows
    are -- also rows that could not be read as a row. *)
Theorem getSimpleData_not_one_column :
  forall (props : list (jsstring * JSValue)) (rest data columns : list JSValue),
    lookup (js "data") props = Some (JArr data) ->
    data <> [] ->
    lookup (js "columns") props = Some (JArr columns) ->
    length columns <> 1 ->
    getSimpleData (JArr (JObj props :: rest)) = Normal JNull.
Proof.
  intros props rest data columns Hd Hne Hc Hlen.
  destruct data as [|row data]; [contradiction|].
  rewrite (getSimpleData_rows _ _ _ _ _ Hd Hc).
  apply Nat.eqb_neq in Hlen. rewrite Hlen. reflexivity.
Qed.

(** C10 at two columns and a row in the bare-array shape. *)
Lemma getSimpleData_not_one_column_witness :
  getSimpleData
    (JArr [JObj [(js "columns", JArr [JStr (js "name"); JStr (js "grade")]);
                 (js "data", JArr [JArr [JStr (js "Tim Jones"); JNum 9]])]])
  = Normal JNull.
Proof.
  assert (Hne : [JArr [JStr (js "Tim Jones"); JNum 9]] <> []) by discriminate.
  assert (Hlen : length [JStr (js "name"); JStr (js "grade")] <> 1) by (simpl; lia).
  exact (getSimpleData_not_one_column
           [(js "columns", JArr [JStr (js "name"); JStr (js "grade")]);
            (js "data", JArr [JArr [JStr (js "Tim Jones"); JNum 9]])]
           [] [JArr [JStr (js "Tim Jones"); JNum 9]]
           [JStr (js "name"); JStr (js "grade")]
           eq_refl Hne eq_refl Hlen).
Defined.

(** ** The property serializer *)

Section Props.

(** [typeof] never gives ['array']. *)
Lemma typeof_never_array (v : JSValue) :
  jsstring_eqb (typeof v) (js "array") = false.
Proof. destruct v; reflexivity. Qed.

Variable obj : list (jsstring * JSValue).

Lemma toProps_forEach_step (k : jsstring) (rest : list jsstring) (ret : list jsstring) :
  toProps_forEach obj (k :: rest) ret
  = if inline_supported (prop obj k)
    then toProps_forEach obj rest (ret ++ [inline_property (k, prop obj k)])
    else Throw (Error (js "property type not supported")).
Proof.
  cbn [toProps_forEach]. rewrite typeof_never_array.
  unfold inline_property. cbn [fst snd].
  destruct (prop obj k) as [| |b|n|s|elems|props]; reflexivity.
Qed.

(** A value that is not a string, a number or a boolean -- an array
    included -- makes [toProps] throw. *)
Lemma toProps_forEach_unsupported (keys : list jsstring) :
  forall ret,
    (exists k, In k keys /\ inline_supported (prop obj k) = false) ->
    toProps_forEach obj keys ret = Throw (Error (js "property type not supported")).
Proof.
  induction keys as [|k0 keys IH]; intros ret [k [Hin Hk]]; [destruct Hin|].
  rewrite toProps_forEach_step.
  destruct (inline_supported (prop obj k0)) eqn:E; [|reflexivity].
  apply IH. exists k. split; [|exact Hk].
  destruct Hin as [->|Hin]; [congruence|exact Hin].
Qed.

(** X22. One value that is not a string, a number or a boolean --
    [null], [undefined], an object, an array -- anywhere in the object
    makes [toProps] throw the error "property type not supported", and
    no string is returned. *)
Lemma toProps_unsupported (k : jsstring) (v : JSValue) :
  lookup k obj = Some v ->
  inline_supported v = false ->
  toProps obj = Throw (Error (js "property type not supported")).
Proof.
  intros Hl Hv. unfold toProps.
  rewrite (toProps_forEach_unsupported (Object_keys obj) []); [reflexivity|].
  exists k. split.
  - unfold Object_keys. clear Hv. induction obj as [|[k' v'] o IH]; [discriminate|].
    simpl in *. destruct (jsstring_eqb k k') eqn:E.
    + left. unfold jsstring_eqb in E.
      destruct (list_eq_dec N.eq_dec k k'); [auto|discriminate].
    + right. apply IH, Hl.
  - unfold prop. rewrite Hl. exact Hv.
Qed.




End Props.

(** C9, as the code runs. [toProps({tags: []})] throws the
    error "property type not supported": [typeof] of an array is
    ['object'], so the branch that would render [tags:[]] is never
    taken.  With strings, numbers and booleans only, the entries are
    rendered and joined with ", " in key order. *)
Lemma toProps_array_value_throws :
  toProps [(js "tags", JArr [])]
    = Throw (Error (js "property type not supported")) /\
  toProps [(js "name", JStr (js "A")); (js "grade", JNum 9); (js "active", JBool true)]
    = Normal (js "name:" ++ [QUOTE] ++ js "A" ++ [QUOTE] ++ js ", grade:9, active:true").
Proof. split; vm_compute; reflexivity. Qed.

(* ================================================================= *)
(** * Further properties of the code *)

(** ** [QueryBuilder.add] on arbitrary values *)

Section AddAnything.

(** Induction on values that descends into arrays. *)
Lemma JSValue_array_ind (P : JSValue -> Prop) :
  (forall v, (forall elems, v <> JArr elems) -> P v) ->
  (forall elems, Forall P elems -> P (JArr elems)) ->
  forall v, P v.
Proof.
  intros Hleaf Harr.
  fix IH 1.
  intros v. destruct v as [| |b|n|s|elems|props];
    try (apply Hleaf; intros elems' H; discriminate H).
  apply Harr. induction elems as [|x l IHl]; constructor.
  - apply IH.
  - exact IHl.
Qed.

Lemma add_q_extends (partial : JSValue) :
  forall acc, exists added, fst (add_q partial acc) = acc ++ added.
Proof.
  induction partial as [v Hv|elems IHe] using JSValue_array_ind; intros acc.
  - destruct v; try (exists []; simpl; rewrite app_nil_r; reflexivity);
      try (eexists; reflexivity).
    exfalso. apply (Hv elems). reflexivity.
  - rewrite add_q_array. revert acc.
    induction IHe as [|x l Hx _ IH]; intros acc; simpl.
    + exists []. rewrite app_nil_r. reflexivity.
    + destruct (Hx acc) as [a1 H1].
      destruct (add_q x acc) as [acc' [e|]]; simpl in *.
      * exists a1. exact H1.
      * destruct (IH acc') as [a2 H2]. exists (a1 ++ a2).
        rewrite H2, H1, app_assoc. reflexivity.
Qed.

End AddAnything.

(** X1. [add] only ever appends: whatever value it is given, and also
    when it throws part of the way through an array, the builder's list
    after the call begins with the list before the call. *)
Theorem add_only_appends :
  forall (partial : JSValue) (qb : QueryBuilder),
    exists added, q (fst (add partial qb)) = q qb ++ added.
Proof.
  intros partial [acc]. unfold add. simpl.
  destruct (add_q_extends partial acc) as [added H].
  exists added. destruct (add_q partial acc). exact H.
Qed.

(** X2. [add] throws a TypeError on [null] and on [undefined], since it
    reads [partial.constructor].  Inside an array the fragments before
    the offending element have been appended when the exception escapes,
    and the elements after it have not. *)
Theorem add_null_stops_midway :
  forall (before : list Fragments) (after : list JSValue) (qb : QueryBuilder),
    add JNull qb = (qb, Some TypeError) /\
    add JUndefined qb = (qb, Some TypeError) /\
    add (JArr (map value_of before ++ JNull :: after)) qb
      = (mkQueryBuilder (q qb ++ map JStr (flat_map flatten before)), Some TypeError) /\
    add (JArr (map value_of before ++ JUndefined :: after)) qb
      = (mkQueryBuilder (q qb ++ map JStr (flat_map flatten before)), Some TypeError).
Proof.
  intros before after [acc].
  assert (H : forall bad, add_q bad = (fun a => (a, Some TypeError)) ->
              forall acc0,
                add_each (map value_of before ++ bad :: after) acc0
                = (acc0 ++ map JStr (flat_map flatten before), Some TypeError)).
  { intros bad Hbad. induction before as [|f l IH]; intros acc0; simpl.
    - rewrite Hbad, app_nil_r. reflexivity.
    - rewrite add_q_value_of, IH, map_app, app_assoc. reflexivity. }
  repeat split; unfold add; cbn [q]; rewrite add_q_array, H; reflexivity.
Qed.

(** ** What [QueryBuilder.toString] keeps and what it changes *)

Section RenderingMore.

Lemma non_ws_replace (s : jsstring) :
  forall in_match, non_ws_units (replace_ws_runs_from in_match s) = non_ws_units s.
Proof.
  unfold non_ws_units.
  induction s as [|c r IH]; intros [|]; trivial.
  - cbn [replace_ws_runs_from]. destruct (is_ws c) eqn:E.
    + rewrite IH. simpl. rewrite E. reflexivity.
    + simpl. rewrite E. simpl. f_equal. apply IH.
  - cbn [replace_ws_runs_from]. destruct r as [|d r']; [reflexivity|].
    destruct (is_ws c && is_ws d) eqn:E.
    + apply andb_true_iff in E. destruct E as [Ec Ed].
      cbn [filter]. change (is_ws SPACE) with true. cbn [negb].
      rewrite IH. cbn [filter]. rewrite Ec. reflexivity.
    + cbn [filter]. rewrite IH. reflexivity.
Qed.

Lemma non_ws_filter (f : code_unit -> bool) (s : jsstring) :
  (forall c, f c = false -> is_ws c = true) ->
  non_ws_units (filter f s) = non_ws_units s.
Proof.
  intros Hf. unfold non_ws_units.
  induction s as [|c r IH]; simpl; trivial.
  destruct (f c) eqn:E; simpl; rewrite IH; [reflexivity|].
  rewrite (Hf c E). reflexivity.
Qed.

Lemma non_ws_trim_start (s : jsstring) : non_ws_units (trim_start s) = non_ws_units s.
Proof.
  unfold non_ws_units. induction s as [|c r IH]; simpl; trivial.
  destruct (is_ws c) eqn:E; simpl; [exact IH|].
  rewrite E. reflexivity.
Qed.

Lemma non_ws_trim_end (s : jsstring) : non_ws_units (trim_end s) = non_ws_units s.
Proof.
  unfold non_ws_units. induction s as [|c r IH]; trivial.
  cbn [trim_end]. destruct (trim_end r) as [|y r'].
  - simpl in IH. destruct (is_ws c) eqn:E; simpl; rewrite E; simpl; rewrite <- IH;
      reflexivity.
  - cbn [filter] in *. rewrite IH. reflexivity.
Qed.

Lemma non_ws_pipeline (s : jsstring) :
  non_ws_units (trim (remove_breaks (replace_ws_runs s))) = non_ws_units s.
Proof.
  unfold trim. rewrite non_ws_trim_end, non_ws_trim_start, remove_breaks_filter.
  rewrite non_ws_filter.
  - apply non_ws_replace.
  - intros c Hc. apply is_break_ws, negb_false_iff, Hc.
Qed.

(** A string without neighbouring white space has no match for
    [/\s\s+/]. *)
Lemma replace_ws_runs_id (s : jsstring) : adj_free s -> replace_ws_runs s = s.
Proof.
  unfold replace_ws_runs.
  induction s as [|c r IH]; trivial.
  intros [Hh Ht]. cbn [replace_ws_runs_from].
  destruct r as [|d r']; trivial.
  rewrite Hh, (IH Ht). reflexivity.
Qed.

Lemma remove_breaks_id (s : jsstring) : no_line_breaks s -> remove_breaks s = s.
Proof.
  intros (Hlf & Hcr & Htab). rewrite remove_breaks_filter.
  induction s as [|c r IH]; trivial.
  simpl. assert (E : is_break c = false).
  { unfold is_break.
    destruct (N.eqb_spec c LF) as [->|_]; [exfalso; apply Hlf; left; reflexivity|].
    destruct (N.eqb_spec c CR) as [->|_]; [exfalso; apply Hcr; left; reflexivity|].
    destruct (N.eqb_spec c TAB) as [->|_]; [exfalso; apply Htab; left; reflexivity|].
    reflexivity. }
  rewrite E. simpl. f_equal. apply IH; intros H; [apply Hlf|apply Hcr|apply Htab];
    right; exact H.
Qed.

Lemma trim_end_id (s : jsstring) :
  (forall r c, s = r ++ [c] -> is_ws c = false) -> trim_end s = s.
Proof.
  induction s as [|c r IH]; trivial.
  intros H. cbn [trim_end]. rewrite IH.
  - destruct r; trivial. rewrite (H [] c eq_refl). reflexivity.
  - intros r0 c0 ->. apply (H (c :: r0) c0). reflexivity.
Qed.

Lemma trim_id (s : jsstring) : no_outer_ws s -> trim s = s.
Proof.
  intros [Hhd Hlast]. unfold trim.
  assert (E : trim_start s = s).
  { destruct s as [|c r]; trivial. simpl. rewrite (Hhd c r eq_refl). reflexivity. }
  rewrite E. apply trim_end_id, Hlast.
Qed.

(** The three steps of [toString] leave a rendered string as it is. *)
Lemma pipeline_id (s : jsstring) :
  rendered s -> trim (remove_breaks (replace_ws_runs s)) = s.
Proof.
  intros (Ha & Hb & Ho).
  rewrite (replace_ws_runs_id s Ha), (remove_breaks_id s Hb). apply trim_id, Ho.
Qed.

Lemma toString_rendered (qb : QueryBuilder) : rendered (toString qb).
Proof.
  destruct (toString_clean qb) as (Hb & _ & Ho).
  split; [|split; assumption].
  unfold toString. apply trim_adj_free.
  rewrite remove_breaks_filter. apply adj_free_filter.
  - intros c Hc. apply is_break_ws, negb_false_iff, Hc.
  - apply replace_ws_runs_adj_free.
Qed.

Lemma adj_free_app (a b : jsstring) :
  adj_free a -> adj_free b ->
  (forall r c d b', a = r ++ [c] -> b = d :: b' -> is_ws c && is_ws d = false) ->
  adj_free (a ++ b).
Proof.
  intros Ha Hb Hj. induction a as [|x a IH]; [exact Hb|].
  simpl in Ha. destruct Ha as [Hh Ht].
  change ((x :: a) ++ b) with (x :: (a ++ b)). apply adj_free_cons. split.
  - destruct a as [|y a']; simpl.
    + destruct b as [|d b']; trivial. apply (Hj [] x d b'); reflexivity.
    + exact Hh.
  - apply IH; [exact Ht|].
    intros r c d b' -> Eb. apply (Hj (x :: r) c d b'); [reflexivity|exact Eb].
Qed.

Lemma no_line_breaks_app (a b : jsstring) :
  no_line_breaks a -> no_line_breaks b -> no_line_breaks (a ++ b).
Proof.
  intros (A1 & A2 & A3) (B1 & B2 & B3).
  repeat split; intros H; apply in_app_or in H; tauto.
Qed.

(** Gluing two rendered, non-empty strings with one code unit in the
    middle gives a string that begins and ends as they do. *)
Lemma no_outer_ws_around (a b : jsstring) (m : list code_unit) :
  no_outer_ws a -> no_outer_ws b -> a <> [] -> b <> [] ->
  no_outer_ws (a ++ m ++ b).
Proof.
  intros [Ha _] [_ Hb] Hna Hnb. split.
  - intros c r H. destruct a as [|x a']; [contradiction|].
    injection H as -> _. apply (Ha c a' eq_refl).
  - intros r c H.
    destruct (exists_last Hnb) as (b0 & y & ->).
    rewrite !app_assoc in H. apply app_inj_tail in H. destruct H as [_ ->].
    apply (Hb b0 c eq_refl).
Qed.

Lemma rendered_join (fragments : list jsstring) :
  Forall (fun f => rendered f /\ f <> []) fragments ->
  rendered (join (js " ") fragments) /\
  (fragments <> [] -> join (js " ") fragments <> []).
Proof.
  induction 1 as [|f l [Hf Hne] Hl [IHr IHn]].
  - split; [|intros H; contradiction].
    repeat split; simpl; auto; intros; try discriminate.
    destruct r; discriminate.
  - destruct l as [|g l'].
    + simpl. split; [exact Hf|intros _; exact Hne].
    + assert (Hj : join (js " ") (g :: l') <> []) by (apply IHn; discriminate).
      change (join (js " ") (f :: g :: l')) with (f ++ [SPACE] ++ join (js " ") (g :: l')).
      set (rest := join (js " ") (g :: l')) in *.
      destruct Hf as (Fa & Fb & Fo). destruct IHr as (Ra & Rb & Ro).
      split; [|intros _ E; apply app_eq_nil in E; destruct E as [E _]; contradiction].
      split; [|split].
      * apply adj_free_app; trivial.
        -- destruct rest as [|d rest']; [contradiction|].
           apply adj_free_cons. split; [|exact Ra].
           destruct Ro as [Ro _]. rewrite (Ro d rest' eq_refl). reflexivity.
        -- intros r c d b' -> E. injection E as <- _.
           destruct Fo as [_ Fo]. rewrite (Fo r c eq_refl). reflexivity.
      * apply no_line_breaks_app; [exact Fb|].
        apply (no_line_breaks_app [SPACE] rest); [|exact Rb].
        repeat split; intros [H|[]]; discriminate H.
      * apply no_outer_ws_around; trivial.
Qed.

End RenderingMore.

(** X3. [toString] changes white space only: the code units of the
    joined fragments that are not white space are all in the result, in
    the same order, and nothing else that is not white space is. *)
Theorem toString_keeps_non_ws :
  forall qb : QueryBuilder,
    non_ws_units (toString qb) = non_ws_units (Array_join (js " ") (q qb)).
Proof. intros qb. apply non_ws_pipeline. Qed.

(** X4. [toString] returns the empty string exactly when the joined
    fragments hold nothing but white space; in particular a new builder
    renders to the empty string. *)
Theorem toString_empty_iff_blank :
  forall qb : QueryBuilder,
    is_empty (toString qb) = forallb is_ws (Array_join (js " ") (q qb)) /\
    toString new_QueryBuilder = [].
Proof.
  intros qb. split; [|reflexivity].
  pose proof (Hkeep := non_ws_pipeline (Array_join (js " ") (q qb))).
  fold (toString qb) in Hkeep.
  destruct (toString_clean qb) as (_ & _ & [Hhd _]).
  set (joined := Array_join (js " ") (q qb)) in *.
  assert (Hblank : forall s, forallb is_ws s = is_empty (non_ws_units s)).
  { induction s as [|c r IH]; trivial. simpl. unfold non_ws_units in *. simpl.
    destruct (is_ws c); simpl; [exact IH|reflexivity]. }
  rewrite Hblank, <- Hkeep.
  destruct (toString qb) as [|c r]; trivial.
  unfold non_ws_units. simpl. rewrite (Hhd c r eq_refl). reflexivity.
Qed.

(** X5. Rendering is idempotent: a builder that is given the rendering
    of another builder as its only fragment renders to that same
    string. *)
Theorem toString_idempotent :
  forall qb : QueryBuilder,
    add (JStr (toString qb)) new_QueryBuilder
      = (mkQueryBuilder [JStr (toString qb)], None) /\
    toString (mkQueryBuilder [JStr (toString qb)]) = toString qb.
Proof.
  intros qb. split; [reflexivity|].
  unfold toString at 1. cbn [q Array_join map join join_element ToString].
  apply pipeline_id, toString_rendered.
Qed.

(** X6. Fragments that are themselves rendered strings and not empty
    are joined with single spaces and otherwise left alone. *)
Theorem toString_of_rendered_fragments :
  forall fragments : list jsstring,
    Forall (fun f => rendered f /\ f <> []) fragments ->
    toString (mkQueryBuilder (map JStr fragments)) = join (js " ") fragments.
Proof.
  intros fragments H. unfold toString, Array_join. cbn [q].
  rewrite map_map. cbn [join_element ToString]. rewrite map_id.
  apply pipeline_id, rendered_join, H.
Qed.

(** X6 at the two fragments of the repository's delete test. *)
Lemma toString_of_rendered_fragments_witness :
  toString (mkQueryBuilder [JStr (js "MATCH (s:Student)"); JStr (js "DELETE(s)")])
  = js "MATCH (s:Student) DELETE(s)".
Proof.
  assert (H1 : rendered (js "MATCH (s:Student)")).
  { change (js "MATCH (s:Student)")
      with (toString (mkQueryBuilder [JStr (js "MATCH (s:Student)")])).
    apply toString_rendered. }
  assert (H2 : rendered (js "DELETE(s)")).
  { change (js "DELETE(s)") with (toString (mkQueryBuilder [JStr (js "DELETE(s)")])).
    apply toString_rendered. }
  assert (N1 : js "MATCH (s:Student)" <> []) by discriminate.
  assert (N2 : js "DELETE(s)" <> []) by discriminate.
  exact (toString_of_rendered_fragments
           [js "MATCH (s:Student)"; js "DELETE(s)"]
           (Forall_cons _ (conj H1 N1) (Forall_cons _ (conj H2 N2) (Forall_nil _)))).
Defined.

(** X7. A single newline, carriage return or tab between two words is
    deleted without a space taking its place: for rendered, non-empty
    [a] and [b], the fragment [a], line break, [b] renders to [a]
    followed directly by [b]. *)
Theorem toString_glues_across_line_break :
  forall (a b : jsstring) (c : code_unit),
    rendered a -> a <> [] ->
    rendered b -> b <> [] ->
    is_break c = true ->
    toString (mkQueryBuilder [JStr (a ++ c :: b)]) = a ++ b.
Proof.
  intros a b c (Aa & Ab & Ao) Hna (Ba & Bb & Bo) Hnb Hc.
  unfold toString. cbn [q Array_join map join join_element ToString].
  rewrite replace_ws_runs_id.
  - rewrite remove_breaks_filter, filter_app. cbn [filter]. rewrite Hc. cbn [negb].
    rewrite <- !remove_breaks_filter, (remove_breaks_id a Ab), (remove_breaks_id b Bb).
    apply trim_id. apply (no_outer_ws_around a b []); assumption.
  - apply adj_free_app; trivial.
    + destruct b as [|d b']; [contradiction|].
      apply adj_free_cons. split; [|exact Ba].
      destruct Bo as [Bo _]. rewrite (Bo d b' eq_refl). apply andb_false_r.
    + intros r x d b' -> E. injection E as <- _.
      destruct Ao as [_ Ao]. rewrite (Ao r x eq_refl). reflexivity.
Qed.

(** X7 at ["RETURN", LF, "s"]. *)
Lemma toString_glues_across_line_break_witness :
  toString (mkQueryBuilder [JStr (js "RETURN" ++ LF :: js "s")]) = js "RETURNs".
Proof.
  assert (H1 : rendered (js "RETURN")).
  { change (js "RETURN") with (toString (mkQueryBuilder [JStr (js "RETURN")])).
    apply toString_rendered. }
  assert (H2 : rendered (js "s")).
  { change (js "s") with (toString (mkQueryBuilder [JStr (js "s")])).
    apply toString_rendered. }
  assert (N1 : js "RETURN" <> []) by discriminate.
  assert (N2 : js "s" <> []) by discriminate.
  exact (toString_glues_across_line_break (js "RETURN") (js "s") LF H1 N1 H2 N2 eq_refl).
Defined.

(** ** The other paths of the protocol *)

Section ProtocolMore.

Variable env : Env.

Lemma status_accepted (res : Response) :
  status res = HTTP_OK \/ status res = HTTP_CREATED ->
  negb (status res =? HTTP_OK)%Z && negb (status res =? HTTP_CREATED)%Z = false.
Proof. intros [-> | ->]; reflexivity. Qed.

(** The first [fetch] is rejected. *)
Lemma processTransaction_fetch_rejected (t : Transaction) (tr : list Event) (e : Thrown) :
  server env (requests_of tr) (batch_request t) = Throw e ->
  _processTransaction env t tr
  = {| this_after := set_used t;
       trace := tr ++ [Fetch (batch_request t)];
       settled := Rejected e |}.
Proof.
  intros Hres.
  unfold _processTransaction, _processTransaction_call, _processTransaction_callbacks.
  rewrite Hres. reflexivity.
Qed.

(** The batch is accepted and [res.json()] is rejected. *)
Lemma processTransaction_body_rejected (t : Transaction) (tr : list Event)
    (res : Response) (e : Thrown) :
  server env (requests_of tr) (batch_request t) = Normal res ->
  status res = HTTP_OK \/ status res = HTTP_CREATED ->
  json res = Throw e ->
  _processTransaction env t tr
  = {| this_after := set_used t;
       trace := tr ++ [Fetch (batch_request t)];
       settled := Rejected e |}.
Proof.
  intros Hres Hstatus Hjson.
  unfold _processTransaction, _processTransaction_call, _processTransaction_callbacks.
  rewrite Hres. unfold and_then, lift, on_batch_response.
  rewrite (status_accepted res Hstatus), Hjson. reflexivity.
Qed.

(** The batch is accepted without errors and the commit [fetch] is
    rejected. *)
Lemma processTransaction_commit_rejected (t : Transaction) (tr : list Event)
    (res : Response) (body : Envelope) (e : Thrown) :
  server env (requests_of tr) (batch_request t) = Normal res ->
  status res = HTTP_OK \/ status res = HTTP_CREATED ->
  json res = Normal body ->
  errors body = [] ->
  server env (requests_of tr ++ [batch_request t]) (commit_request t (commit body))
    = Throw e ->
  _processTransaction env t tr
  = {| this_after := set_used t;
       trace := tr ++ [Fetch (batch_request t); Fetch (commit_request t (commit body))];
       settled := Rejected e |}.
Proof.
  intros Hres Hstatus Hjson Herrors Hres2.
  unfold _processTransaction, _processTransaction_call, _processTransaction_callbacks.
  rewrite Hres. unfold and_then, lift, on_batch_response.
  rewrite (status_accepted res Hstatus), Hjson. unfold lift, on_batch_json. cbv beta iota.
  rewrite Herrors. simpl.
  unfold and_then, fetch, pure.
  rewrite requests_of_app. simpl requests_of.
  change (commit_request (set_used t)) with (commit_request t).
  rewrite Hres2. simpl. rewrite <- app_assoc. reflexivity.
Qed.

(** The requests of a run of [_processTransaction]: the batch, then at
    most one more, which is the rollback or a commit. *)
Lemma processTransaction_requests (t : Transaction) (tr : list Event) :
  exists more,
    requests_of (trace (_processTransaction env t tr))
    = requests_of tr ++ batch_request t :: more /\
    (more = [] \/ more = [rollback_request t] \/
     exists commit_url, more = [commit_request t commit_url]).
Proof.
  unfold _processTransaction, _processTransaction_call, _processTransaction_callbacks.
  unfold and_then, lift.
  destruct (server env (requests_of tr) (batch_request t)) as [res|e]; simpl.
  2:{ exists []. split; [apply requests_of_app|auto]. }
  unfold on_batch_response.
  destruct (negb (status res =? HTTP_OK)%Z && negb (status res =? HTTP_CREATED)%Z); simpl.
  { unfold and_then, fetch_detached, emit, throw. simpl.
    exists [rollback_request t]. split; [|auto].
    rewrite !requests_of_app, <- app_assoc. reflexivity. }
  unfold lift.
  destruct (json res) as [body|e]; simpl.
  2:{ exists []. split; [apply requests_of_app|auto]. }
  unfold on_batch_json.
  destruct (0 <? Z.of_nat (length (errors body)))%Z; simpl.
  { exists []. split; [apply requests_of_app|auto]. }
  unfold and_then, fetch, pure.
  exists [commit_request t (commit body)]. split; [|eauto].
  destruct (server env _ (commit_request (set_used t) (commit body))) as [res2|e]; simpl.
  2:{ rewrite !requests_of_app, <- app_assoc. reflexivity. }
  unfold on_commit_response.
  destruct (status res2 =? HTTP_OK)%Z; [|simpl; rewrite !requests_of_app, <- app_assoc; reflexivity].
  destruct (truthy (cachable (set_used t)));
    [|simpl; rewrite !requests_of_app, <- app_assoc; reflexivity].
  destruct (cacher (set_used t));
    [|simpl; rewrite !requests_of_app, <- app_assoc; reflexivity].
  destruct (global_cacher env);
    unfold and_then, emit, pure, throw; simpl;
    rewrite !requests_of_app, <- ?app_assoc; simpl; rewrite ?app_nil_r; reflexivity.
Qed.

End ProtocolMore.

(** X8. When the [fetch] of the batch is itself rejected (the database
    cannot be reached), the promise of [execute()] is rejected with the
    same reason; the batch request is the only one issued -- no DELETE is
    attempted -- and the transaction is used up. *)
Theorem rejected_fetch_is_passed_on :
  forall (env : Env) (t : Transaction) (e : Thrown),
    begins_protocol env t = true ->
    server env [] (batch_request t) = Throw e ->
    settled (execute env t) = Rejected e /\
    requests_of (trace (execute env t)) = [batch_request t] /\
    used (this_after (execute env t)) = true.
Proof.
  intros env t e Hb Hres.
  rewrite (execute_begins_protocol env t Hb).
  rewrite (processTransaction_fetch_rejected env t (preamble env t) e)
    by (rewrite requests_of_preamble; exact Hres).
  simpl. rewrite requests_of_app, requests_of_preamble. repeat split.
Qed.

(** X8 at a database that refuses the connection. *)
Lemma rejected_fetch_is_passed_on_witness :
  settled (execute unreachable_world sample_transaction)
    = Rejected (HostError (js "ECONNREFUSED")) /\
  requests_of (trace (execute unreachable_world sample_transaction))
    = [batch_request sample_transaction].
Proof.
  destruct (rejected_fetch_is_passed_on unreachable_world sample_transaction
              (HostError (js "ECONNREFUSED")) eq_refl eq_refl) as (H1 & H2 & _).
  split; [exact H1|exact H2].
Defined.

(** X9. When the batch is answered with 200 or 201 and the body cannot
    be read as JSON, the promise is rejected with the reason [json()]
    gives; neither a commit nor a DELETE is sent, so the transaction the
    database has opened is left to expire. *)
Theorem unreadable_body_rejects :
  forall (env : Env) (t : Transaction) (res : Response) (e : Thrown),
    begins_protocol env t = true ->
    server env [] (batch_request t) = Normal res ->
    status res = HTTP_OK \/ status res = HTTP_CREATED ->
    json res = Throw e ->
    settled (execute env t) = Rejected e /\
    requests_of (trace (execute env t)) = [batch_request t].
Proof.
  intros env t res e Hb Hres Hstatus Hjson.
  rewrite (execute_begins_protocol env t Hb).
  rewrite (processTransaction_body_rejected env t (preamble env t) res e);
    try assumption; try (rewrite requests_of_preamble; assumption).
  simpl. rewrite requests_of_app, requests_of_preamble. split; reflexivity.
Qed.

(** X9 at a database that answers 200 with a body that is not JSON. *)
Lemma unreadable_body_rejects_witness :
  settled (execute garbled_world sample_transaction)
    = Rejected (HostError (js "invalid json")) /\
  requests_of (trace (execute garbled_world sample_transaction))
    = [batch_request sample_transaction].
Proof.
  exact (unreadable_body_rejects garbled_world sample_transaction
           (mkResponse 200 (js "OK") (Throw (HostError (js "invalid json"))))
           (HostError (js "invalid json"))
           eq_refl eq_refl (or_introl eq_refl) eq_refl).
Defined.

(** X10. The commit must be answered with 200 exactly: with any other
    status -- 201 included, which the batch accepts -- the promise is
    rejected with the error "commit failed", the results of the batch
    are not delivered, and no DELETE follows the two requests. *)
Theorem commit_needs_200 :
  forall (env : Env) (t : Transaction) (res : Response) (body : Envelope)
         (res2 : Response),
    begins_protocol env t = true ->
    server env [] (batch_request t) = Normal res ->
    status res = HTTP_OK \/ status res = HTTP_CREATED ->
    json res = Normal body ->
    errors body = [] ->
    server env [batch_request t] (commit_request t (commit body)) = Normal res2 ->
    status res2 <> HTTP_OK ->
    settled (execute env t) = Rejected (Error (js "commit failed")) /\
    requests_of (trace (execute env t))
      = [batch_request t; commit_request t (commit body)].
Proof.
  intros env t res body res2 Hb Hres Hstatus Hjson Herrors Hres2 Hstatus2.
  rewrite (execute_begins_protocol env t Hb).
  rewrite (processTransaction_commit env t (preamble env t) res body res2);
    try assumption; try (rewrite requests_of_preamble; assumption).
  unfold on_commit_response.
  apply Z.eqb_neq in Hstatus2. rewrite Hstatus2. simpl.
  rewrite requests_of_app, requests_of_preamble. split; reflexivity.
Qed.

(** X10 at a database that answers the commit with 201. *)
Lemma commit_needs_200_witness :
  settled (execute created_on_commit_world sample_transaction)
    = Rejected (Error (js "commit failed")) /\
  requests_of (trace (execute created_on_commit_world sample_transaction))
    = [batch_request sample_transaction;
       commit_request sample_transaction sample_commit_url].
Proof.
  assert (Hne : 201%Z <> HTTP_OK) by (unfold HTTP_OK; lia).
  exact (commit_needs_200 created_on_commit_world sample_transaction
           (mkResponse 200 (js "OK")
              (Normal (mkEnvelope sample_results [] sample_commit_url)))
           (mkEnvelope sample_results [] sample_commit_url)
           (mkResponse 201 (js "Created") (Throw (HostError (js "empty body"))))
           eq_refl eq_refl (or_introl eq_refl) eq_refl eq_refl eq_refl Hne).
Defined.

(** X11. When the [fetch] of the commit is rejected, the promise is
    rejected with that reason after the two requests; whether the
    database committed is not known to the caller. *)
Theorem rejected_commit_is_passed_on :
  forall (env : Env) (t : Transaction) (res : Response) (body : Envelope) (e : Thrown),
    begins_protocol env t = true ->
    server env [] (batch_request t) = Normal res ->
    status res = HTTP_OK \/ status res = HTTP_CREATED ->
    json res = Normal body ->
    errors body = [] ->
    server env [batch_request t] (commit_request t (commit body)) = Throw e ->
    settled (execute env t) = Rejected e /\
    requests_of (trace (execute env t))
      = [batch_request t; commit_request t (commit body)].
Proof.
  intros env t res body e Hb Hres Hstatus Hjson Herrors Hres2.
  rewrite (execute_begins_protocol env t Hb).
  rewrite (processTransaction_commit_rejected env t (preamble env t) res body e);
    try assumption; try (rewrite requests_of_preamble; assumption).
  simpl. rewrite requests_of_app, requests_of_preamble. split; reflexivity.
Qed.

(** X11 at a database that drops the connection on the commit. *)
Lemma rejected_commit_is_passed_on_witness :
  settled (execute dropping_world sample_transaction)
    = Rejected (HostError (js "ECONNRESET")) /\
  requests_of (trace (execute dropping_world sample_transaction))
    = [batch_request sample_transaction;
       commit_request sample_transaction sample_commit_url].
Proof.
  exact (rejected_commit_is_passed_on dropping_world sample_transaction
           (mkResponse 200 (js "OK")
              (Normal (mkEnvelope sample_results [] sample_commit_url)))
           (mkEnvelope sample_results [] sample_commit_url)
           (HostError (js "ECONNRESET"))
           eq_refl eq_refl (or_introl eq_refl) eq_refl eq_refl eq_refl).
Defined.

(** X12. Whatever the environment, [execute()] issues at most two
    requests: none, or the batch alone, or the batch followed by either
    the rollback DELETE or one commit POST -- never both.  Each of them
    carries the same three headers, with [Authorization: Basic <auth>]. *)
Theorem execute_sends_at_most_two_requests :
  forall (env : Env) (t : Transaction),
    (requests_of (trace (execute env t)) = [] \/
     requests_of (trace (execute env t)) = [batch_request t] \/
     requests_of (trace (execute env t)) = [batch_request t; rollback_request t] \/
     exists commit_url,
       requests_of (trace (execute env t))
       = [batch_request t; commit_request t commit_url]) /\
    Forall (fun r => headers r = request_headers t /\
                     In (js "Authorization", js "Basic " ++ auth t) (headers r))
      (requests_of (trace (execute env t))).
Proof.
  intros env t.
  assert (Hh : In (js "Authorization", js "Basic " ++ auth t) (request_headers t))
    by (right; right; left; reflexivity).
  destruct (begins_protocol env t) eqn:Hb.
  - rewrite (execute_begins_protocol env t Hb).
    destruct (processTransaction_requests env t (preamble env t))
      as (more & -> & [-> | [-> | [u ->]]]);
      rewrite requests_of_preamble; simpl; split; eauto 6;
      repeat constructor; assumption.
  - destruct (execute_stops_before_protocol env t Hb) as [-> _].
    split; [auto|constructor].
Qed.

(** X13. [execute()] does not look at [used]: called again on a
    transaction whose protocol has begun, it sends the same batch once
    more. *)
Theorem execute_does_not_check_used :
  forall (env1 env2 : Env) (t : Transaction),
    begins_protocol env1 t = true ->
    begins_protocol env2 t = true ->
    used (this_after (execute env1 t)) = true /\
    exists more,
      requests_of (trace (execute env2 (this_after (execute env1 t))))
      = batch_request t :: more.
Proof.
  intros env1 env2 t H1 H2.
  rewrite this_after_execute, H1. split; [reflexivity|].
  assert (H2' : begins_protocol env2 (set_used t) = true) by exact H2.
  destruct (execute_sends_batch_iff env2 (set_used t)) as [H _].
  destruct (H H2') as [more Hmore]. exists more. exact Hmore.
Qed.

(** X13 at two executions against a database that is down. *)
Lemma execute_does_not_check_used_witness :
  used (this_after (execute missing_world sample_transaction)) = true /\
  exists more,
    requests_of (trace (execute missing_world
                          (this_after (execute missing_world sample_transaction))))
    = batch_request sample_transaction :: more.
Proof.
  exact (execute_does_not_check_used missing_world missing_world sample_transaction
           eq_refl eq_refl).
Defined.

(** X14 (see [successful_commit_resolves_with_results]) at the database
    that accepts the batch with 201 and the commit with 200. *)
Lemma successful_commit_resolves_with_results_witness :
  settled (execute plain_world sample_transaction) = Resolved sample_results /\
  requests_of (trace (execute plain_world sample_transaction))
    = [batch_request sample_transaction;
       commit_request sample_transaction sample_commit_url].
Proof.
  exact (successful_commit_resolves_with_results plain_world sample_transaction
           (mkResponse 201 (js "Created")
              (Normal (mkEnvelope sample_results [] sample_commit_url)))
           (mkEnvelope sample_results [] sample_commit_url)
           (mkResponse 200 (js "OK") (Throw (HostError (js "empty body"))))
           eq_refl eq_refl eq_refl (or_intror eq_refl) eq_refl eq_refl eq_refl eq_refl).
Defined.

(** X16. Where a global [cacher] exists and has the key, [execute()] on
    a transaction marked cached resolves with the cached value without
    any request.  The read goes to the global object, whichever client
    the transaction holds, and the transaction is left as it was: it is
    not used up, and [addQuery] on it does what it did before. *)
Theorem cache_hit_leaves_transaction_unused :
  forall (env : Env) (t : Transaction) (g : Handle) (cachedData : JSValue),
    cached t = true ->
    global_cacher env = Some g ->
    cache_getData env g (cachePrefix t) (cacheKey t) = Normal cachedData ->
    settled (execute env t) = Resolved cachedData /\
    trace (execute env t) = [SetCachePrefix g (cachePrefix t); GetData g (cacheKey t)] /\
    this_after (execute env t) = t /\
    (forall qb params,
        addQuery qb params (this_after (execute env t)) = addQuery qb params t).
Proof.
  intros env t g v Hc Hg Hv.
  rewrite (execute_cache_hit env t Hc g v Hg Hv). repeat split.
Qed.

(** X16 at a cached transaction of a facade whose client is object 0, in
    a host whose global [cacher] is object 7. *)
Lemma cache_hit_leaves_transaction_unused_witness :
  settled (execute warm_world sample_cached_transaction) = Resolved sample_results /\
  trace (execute warm_world sample_cached_transaction)
    = [SetCachePrefix 7 (JStr (js "students")); GetData 7 (JStr (js "all"))] /\
  used (this_after (execute warm_world sample_cached_transaction)) = false.
Proof.
  destruct (cache_hit_leaves_transaction_unused warm_world sample_cached_transaction
              7 sample_results eq_refl eq_refl eq_refl) as (H1 & H2 & H3 & _).
  split; [exact H1|]. split; [exact H2|]. rewrite H3. reflexivity.
Defined.

Section NoClient.

Lemma cacher_after_call (t : Transaction) (c : Call) :
  cacher (after_call t c) = cacher t.
Proof.
  destruct c as [qb params|prefix key duration|env]; simpl.
  - unfold addQuery. destruct (used t); reflexivity.
  - unfold cacheable. destruct (cacher t) eqn:E; simpl; exact E.
  - rewrite this_after_execute. destruct (begins_protocol env t); reflexivity.
Qed.

Lemma cached_after_call (t : Transaction) (c : Call) :
  cacher t = None -> cached (after_call t c) = cached t.
Proof.
  intros Hn. destruct c as [qb params|prefix key duration|env]; simpl.
  - unfold addQuery. destruct (used t); reflexivity.
  - unfold cacheable. rewrite Hn. reflexivity.
  - rewrite this_after_execute. destruct (begins_protocol env t); reflexivity.
Qed.

Lemma no_client_after_calls (calls : list Call) :
  forall t,
    cacher t = None -> cached t = false ->
    cacher (after_calls calls t) = None /\ cached (after_calls calls t) = false.
Proof.
  unfold after_calls.
  induction calls as [|c calls IH]; intros t Hn Hc; simpl; [auto|].
  apply IH.
  - rewrite cacher_after_call. exact Hn.
  - rewrite (cached_after_call t c Hn). exact Hc.
Qed.

End NoClient.

(** X17. A transaction constructed without a cache client can never be
    made cacheable: after any calls on it, [cacheable] throws the error
    "Attempt to use cacher without calling initCacheDB()", and
    [execute()] goes to the network in every environment. *)
Theorem cacheable_requires_client :
  forall (transactionUrl auth : jsstring) (calls : list Call),
    (forall prefix key duration,
        cacheable prefix key duration
          (after_calls calls (new_Transaction transactionUrl auth None))
        = Throw (Error (js "Attempt to use cacher without calling initCacheDB()"))) /\
    (forall env,
        begins_protocol env (after_calls calls (new_Transaction transactionUrl auth None))
        = true).
Proof.
  intros transactionUrl auth calls.
  destruct (no_client_after_calls calls (new_Transaction transactionUrl auth None)
              eq_refl eq_refl) as [Hn Hc].
  split.
  - intros prefix key duration. unfold cacheable. rewrite Hn. reflexivity.
  - intros env. unfold begins_protocol. rewrite Hc. reflexivity.
Qed.

Section Batch.

Lemma addQuery_all_unused (queries : list (QueryBuilder * JSValue)) :
  forall t,
    used t = false ->
    exists t',
      addQuery_all queries t = Normal t' /\
      statements t' = statements t ++ map statement_of queries /\
      used t' = false /\
      request_headers t' = request_headers t /\
      transactionUrl t' = transactionUrl t.
Proof.
  induction queries as [|[qb params] queries IH]; intros t Hu; simpl.
  - exists t. rewrite app_nil_r. auto.
  - unfold addQuery. rewrite Hu. simpl.
    destruct (IH (push_statement (mkStatement (toString qb) params) t) Hu)
      as (t' & He & Hs & Hu' & Hh & Ht).
    exists t'. rewrite He, Hs. simpl. rewrite <- app_assoc. auto.
Qed.

End Batch.

(** X18. A chain of [addQuery] calls on a new transaction succeeds and
    records one statement per call, in call order, each with the text
    its builder rendered at the time and the parameters as given; that
    list is the body of the batch request. *)
Theorem addQuery_chain_builds_batch :
  forall (queries : list (QueryBuilder * JSValue))
         (transactionUrl auth : jsstring) (cacher : option Handle),
    exists t,
      addQuery_all queries (new_Transaction transactionUrl auth cacher) = Normal t /\
      statements t = map statement_of queries /\
      batch_request t
      = {| url := JStr transactionUrl;
           method := js "post";
           headers := [ (js "content-type", js "application/json");
                        (js "Accept", js "application/json; charset=UTF-8");
                        (js "Authorization", js "Basic " ++ auth) ];
           body := Some (map statement_of queries) |}.
Proof.
  intros queries transactionUrl auth cacher.
  destruct (addQuery_all_unused queries (new_Transaction transactionUrl auth cacher)
              eq_refl) as (t & He & Hs & _ & Hh & Ht).
  exists t. split; [exact He|]. split; [exact Hs|].
  unfold batch_request. rewrite Hh, Ht, Hs. reflexivity.
Qed.

(** ** More on the response helper and the serializers *)

(** X19 (see [getSimpleData_wrapped_row]) at the result of a
    [CREATE ... RETURN s] with a second statement's result after it. *)
Lemma getSimpleData_wrapped_row_witness :
  getSimpleData
    (JArr [JObj [(js "columns", JArr [JStr (js "s")]);
                 (js "data",
                  JArr [JObj [(js "row", JArr [JObj [(js "name", JStr (js "Scott Riggs"));
                                                     (js "grade", JNum 12)]])];
                        JObj [(js "row", JArr [JNum 2])]])];
           JObj [(js "columns", JArr []); (js "data", JArr [])]])
  = Normal (JObj [(js "name", JStr (js "Scott Riggs")); (js "grade", JNum 12)]).
Proof.
  exact (getSimpleData_wrapped_row
           [(js "columns", JArr [JStr (js "s")]);
            (js "data",
             JArr [JObj [(js "row", JArr [JObj [(js "name", JStr (js "Scott Riggs"));
                                                (js "grade", JNum 12)]])];
                   JObj [(js "row", JArr [JNum 2])]])]
           [(js "row", JArr [JObj [(js "name", JStr (js "Scott Riggs"));
                                   (js "grade", JNum 12)]])]
           [JObj [(js "columns", JArr []); (js "data", JArr [])]]
           [JObj [(js "row", JArr [JNum 2])]]
           [JObj [(js "name", JStr (js "Scott Riggs")); (js "grade", JNum 12)]]
           (JStr (js "s"))
           eq_refl eq_refl eq_refl).
Defined.

(** X20. [getSimpleData] returns [null] without throwing whenever there
    is nothing to read: when the first entry is falsy ([undefined],
    [null], [0], [""], [false]), and when its [data] is falsy -- which
    covers entries that are not objects -- or an empty array.  [columns]
    is not looked at in these cases. *)
Theorem getSimpleData_nothing_to_read :
  forall (e : JSValue) (rest : list JSValue),
    (truthy e = false -> getSimpleData (JArr (e :: rest)) = Normal JNull) /\
    (forall d,
        truthy e = true ->
        Get e (js "data") = Normal d ->
        truthy d = false \/ d = JArr [] ->
        getSimpleData (JArr (e :: rest)) = Normal JNull).
Proof.
  intros e rest. split.
  - intros He. unfold getSimpleData. cbn [GetIndex nth bind]. rewrite He. reflexivity.
  - intros d He Hd H. unfold getSimpleData. cbn [GetIndex nth bind].
    rewrite He, Hd. cbn [negb bind].
    destruct H as [Hf | ->]; [rewrite Hf|]; reflexivity.
Qed.

(** X20 at the entries [null], [5] and [{columns: ["n"], data: []}]. *)
Lemma getSimpleData_nothing_to_read_witness :
  getSimpleData (JArr [JNull]) = Normal JNull /\
  getSimpleData (JArr [JNum 5]) = Normal JNull /\
  getSimpleData (JArr [JObj [(js "columns", JArr [JStr (js "n")]); (js "data", JArr [])]])
    = Normal JNull.
Proof.
  split; [|split].
  - exact (proj1 (getSimpleData_nothing_to_read JNull []) eq_refl).
  - exact (proj2 (getSimpleData_nothing_to_read (JNum 5) []) JUndefined
             eq_refl eq_refl (or_introl eq_refl)).
  - exact (proj2 (getSimpleData_nothing_to_read
                    (JObj [(js "columns", JArr [JStr (js "n")]); (js "data", JArr [])]) [])
             (JArr []) eq_refl eq_refl (or_intror eq_refl)).
Defined.


(** X22 (see [toProps_unsupported]) at an object with a [null]. *)
Lemma toProps_unsupported_witness :
  toProps [(js "name", JStr (js "Tim Jones")); (js "nickname", JNull)]
  = Throw (Error (js "property type not supported")).
Proof.
  exact (toProps_unsupported
           [(js "name", JStr (js "Tim Jones")); (js "nickname", JNull)]
           (js "nickname") JNull eq_refl eq_refl).
Defined.

(** ** The serializers' output as a fragment of a query *)

Section Composition.

Lemma ws_free_app (a b : jsstring) : ws_free a -> ws_free b -> ws_free (a ++ b).
Proof. intros Ha Hb c H. apply in_app_or in H. destruct H; auto. Qed.

Lemma ws_free_check (s : jsstring) :
  forallb (fun c => negb (is_ws c)) s = true -> ws_free s.
Proof.
  intros H c Hin. rewrite forallb_forall in H. apply negb_true_iff, H, Hin.
Qed.

Lemma ws_free_adj_free (s : jsstring) : ws_free s -> adj_free s.
Proof.
  induction s as [|c r IH]; intros H; simpl; trivial.
  split.
  - destruct r; trivial. rewrite (H c (or_introl eq_refl)). reflexivity.
  - apply IH. intros x Hx. apply H. right. exact Hx.
Qed.

Lemma ws_free_rendered (s : jsstring) : ws_free s -> rendered s.
Proof.
  intros H. split; [apply ws_free_adj_free, H|]. split.
  - repeat split; intros Hin; apply H in Hin; discriminate Hin.
  - split.
    + intros c r ->. apply H. left. reflexivity.
    + intros r c ->. apply H. apply in_or_app. right. left. reflexivity.
Qed.

(** Two rendered, non-empty strings around a separator that has no
    neighbouring white space and no line break. *)
Lemma rendered_glue (a m b : jsstring) :
  rendered a -> a <> [] -> rendered b -> b <> [] ->
  adj_free m -> no_line_breaks m ->
  rendered (a ++ m ++ b).
Proof.
  intros (Aa & Ab & Ao) Hna (Ba & Bb & Bo) Hnb Hm Hmb.
  split; [|split].
  - apply adj_free_app; trivial.
    + apply adj_free_app; trivial.
      intros r c d b' _ ->. destruct Bo as [Bo _].
      rewrite (Bo d b' eq_refl). apply andb_false_r.
    + intros r c d b' -> _. destruct Ao as [_ Ao].
      rewrite (Ao r c eq_refl). reflexivity.
  - apply no_line_breaks_app; [exact Ab|]. apply no_line_breaks_app; assumption.
  - apply no_outer_ws_around; assumption.
Qed.

Lemma rendered_join_sep (sep : jsstring) (parts : list jsstring) :
  adj_free sep -> no_line_breaks sep ->
  Forall (fun f => rendered f /\ f <> []) parts ->
  parts <> [] ->
  rendered (join sep parts) /\ join sep parts <> [].
Proof.
  intros Hs Hsb H. induction H as [|f l [Hf Hne] Hl IH]; [contradiction|].
  intros _. destruct l as [|g l'].
  - simpl. split; assumption.
  - destruct IH as [IHr IHn]; [discriminate|].
    change (join sep (f :: g :: l')) with (f ++ sep ++ join sep (g :: l')).
    split; [apply rendered_glue; assumption|].
    intros E. apply app_eq_nil in E. destruct E as [E _]. contradiction.
Qed.

Lemma replace_scan_step (c d : code_unit) (r : jsstring) :
  replace_ws_runs_from false (c :: d :: r)
  = if is_ws c && is_ws d then SPACE :: replace_ws_runs_from true (d :: r)
    else c :: replace_ws_runs_from false (d :: r).
Proof. reflexivity. Qed.

(** A rendered string passes [replace(/\s\s+/g, ' ')] unchanged also
    when something follows it. *)
Lemma replace_ws_runs_prefix (a rest : jsstring) :
  adj_free a ->
  (forall r c, a = r ++ [c] -> is_ws c = false) ->
  replace_ws_runs_from false (a ++ rest) = a ++ replace_ws_runs_from false rest.
Proof.
  induction a as [|c a' IH]; intros Ha Hl; [reflexivity|].
  simpl in Ha. destruct Ha as [Hh Ht].
  assert (IH' : replace_ws_runs_from false (a' ++ rest)
                = a' ++ replace_ws_runs_from false rest).
  { apply IH; [exact Ht|]. intros r x ->. apply (Hl (c :: r) x). reflexivity. }
  change ((c :: a') ++ rest) with (c :: (a' ++ rest)).
  destruct a' as [|d a''].
  - assert (Ec : is_ws c = false) by (apply (Hl [] c); reflexivity).
    rewrite (replace_scan_head c _ Ec). reflexivity.
  - change ((d :: a'') ++ rest) with (d :: (a'' ++ rest)) in *.
    rewrite replace_scan_step, Hh, IH'. reflexivity.
Qed.

Variables v objName : jsstring.
Hypothesis Hv : ws_free v.
Hypothesis Hn : ws_free objName.

Lemma set_clause_words (k : jsstring) :
  set_clause v objName k
  = join (js " ") [js "SET"; v ++ js "." ++ k; js "="; js "{" ++ objName ++ js "}." ++ k].
Proof.
  unfold set_clause. cbn [join]. rewrite <- !app_assoc. reflexivity.
Qed.

Lemma set_clause_rendered (k : jsstring) :
  ws_free k -> rendered (set_clause v objName k) /\ set_clause v objName k <> [].
Proof.
  intros Hk. rewrite set_clause_words.
  assert (Hlit : forall s, forallb (fun c => negb (is_ws c)) s = true -> ws_free s).
  { intros s H c Hin. rewrite forallb_forall in H. apply negb_true_iff, H, Hin. }
  split.
  - assert (H2 : ws_free (v ++ js "." ++ k))
      by (repeat apply ws_free_app; trivial; apply Hlit; reflexivity).
    assert (H4 : ws_free (js "{" ++ objName ++ js "}." ++ k))
      by (repeat apply ws_free_app; trivial; apply Hlit; reflexivity).
    apply rendered_join.
    apply Forall_cons; [split; [apply ws_free_rendered, Hlit; reflexivity|discriminate]|].
    apply Forall_cons.
    { split; [apply ws_free_rendered, H2|].
      intros E. apply app_eq_nil in E. destruct E as [_ E]. discriminate E. }
    apply Forall_cons; [split; [apply ws_free_rendered, Hlit; reflexivity|discriminate]|].
    apply Forall_cons; [split; [apply ws_free_rendered, H4|discriminate]|].
    apply Forall_nil.
  - discriminate.
Qed.

(** [toSets] gives a newline, and then for each key a newline, two
    spaces and the clause. *)
Lemma toSets_lines (obj : list (jsstring * JSValue)) :
  toSets v objName obj = LF :: set_lines v objName (Object_keys obj).
Proof.
  unfold toSets, set_lines. generalize (Object_keys obj) as keys. intros keys.
  assert (H : forall ks,
             ks <> [] ->
             join [LF]
               (map (fun k => js "  SET " ++ v ++ js "." ++ k ++ js " = {" ++ objName
                              ++ js "}." ++ k) ks)
             = tl (flat_map (fun k => LF :: SPACE :: SPACE :: set_clause v objName k) ks)).
  { induction ks as [|k ks IH]; intros Hne; [contradiction|].
    destruct ks as [|k' ks'].
    - simpl. rewrite app_nil_r. reflexivity.
    - change (join [LF] (map ?f (k :: k' :: ks')))
        with (f k ++ [LF] ++ join [LF] (map f (k' :: ks'))).
      rewrite IH by discriminate.
      cbn [flat_map tl app]. unfold set_clause. cbn [js app].
      rewrite <- !app_assoc. reflexivity. }
  destruct keys as [|k ks]; [reflexivity|].
  change (join [LF] ([LF] :: map ?f (k :: ks)))
    with ([LF] ++ [LF] ++ join [LF] (map f (k :: ks))).
  rewrite H by discriminate. reflexivity.
Qed.

End Composition.

Section SetsAsFragment.

Variables v objName : jsstring.
Hypothesis Hv : ws_free v.
Hypothesis Hn : ws_free objName.

Lemma replace_in_match_step (c : code_unit) (r : jsstring) :
  replace_ws_runs_from true (c :: r)
  = if is_ws c then replace_ws_runs_from true r else c :: replace_ws_runs_from false r.
Proof. reflexivity. Qed.

Lemma set_clause_head (k : jsstring) : exists cl, set_clause v objName k = 83%N :: cl.
Proof. eexists. reflexivity. Qed.

(** After a white-space run has been replaced, the clause and what
    follows it are scanned afresh. *)
Lemma replace_in_match_clause (k : jsstring) (rest : jsstring) :
  ws_free k ->
  replace_ws_runs_from true (set_clause v objName k ++ rest)
  = set_clause v objName k ++ replace_ws_runs_from false rest.
Proof.
  intros Hk.
  destruct (set_clause_rendered v objName Hv Hn k Hk) as [(Ha & _ & [_ Hl]) _].
  rewrite <- (replace_ws_runs_prefix (set_clause v objName k) rest Ha Hl).
  destruct (set_clause_head k) as [cl ->].
  change ((83%N :: cl) ++ rest) with (83%N :: (cl ++ rest)).
  rewrite replace_in_match_step. symmetry. apply replace_scan_head. reflexivity.
Qed.

Lemma replace_lines (ks : list jsstring) :
  Forall ws_free ks ->
  replace_ws_runs_from false (set_lines v objName ks)
  = flat_map (fun k => SPACE :: set_clause v objName k) ks.
Proof.
  induction 1 as [|k ks Hk _ IH]; [reflexivity|].
  change (set_lines v objName (k :: ks))
    with (LF :: SPACE :: SPACE :: (set_clause v objName k ++ set_lines v objName ks)).
  rewrite replace_scan_step. change (is_ws LF && is_ws SPACE) with true. cbv iota.
  rewrite !replace_in_match_step. change (is_ws SPACE) with true. cbv iota.
  rewrite (replace_in_match_clause k (set_lines v objName ks) Hk), IH. reflexivity.
Qed.

Lemma replace_toSets (k : jsstring) (ks : list jsstring) :
  Forall ws_free (k :: ks) ->
  replace_ws_runs (LF :: set_lines v objName (k :: ks))
  = flat_map (fun k => SPACE :: set_clause v objName k) (k :: ks).
Proof.
  intros H. inversion H as [|? ? Hk Hks]; subst.
  unfold replace_ws_runs.
  change (set_lines v objName (k :: ks))
    with (LF :: SPACE :: SPACE :: (set_clause v objName k ++ set_lines v objName ks)).
  rewrite replace_scan_step. change (is_ws LF && is_ws LF) with true. cbv iota.
  rewrite !replace_in_match_step.
  change (is_ws SPACE) with true. change (is_ws LF) with true. cbv iota.
  rewrite (replace_in_match_clause k (set_lines v objName ks) Hk), (replace_lines ks Hks).
  reflexivity.
Qed.

Lemma spaced_clauses (k : jsstring) (ks : list jsstring) :
  flat_map (fun k => SPACE :: set_clause v objName k) (k :: ks)
  = SPACE :: join (js " ") (map (set_clause v objName) (k :: ks)).
Proof.
  revert k. induction ks as [|k' ks IH]; intros k.
  - simpl. rewrite app_nil_r. reflexivity.
  - change (flat_map ?f (k :: k' :: ks))
      with (SPACE :: set_clause v objName k ++ flat_map f (k' :: ks)).
    rewrite IH. reflexivity.
Qed.

Lemma clauses_rendered (ks : list jsstring) :
  Forall ws_free ks ->
  rendered (join (js " ") (map (set_clause v objName) ks)).
Proof.
  intros H. apply rendered_join.
  induction H as [|k ks Hk _ IH]; constructor; [|exact IH].
  apply (set_clause_rendered v objName Hv Hn k Hk).
Qed.

End SetsAsFragment.

(** X23. The string [toSets] returns, added to a query builder and
    rendered, is the clauses [SET v.key = {objName}.key], one per key in
    key order, separated by single spaces: the newlines and the
    indentation of [toSets] are gone.  (For [v], [objName] and keys
    without white space; the values of the object play no part.) *)
Theorem toSets_renders_to_clauses :
  forall (v objName : jsstring) (obj : list (jsstring * JSValue)),
    ws_free v ->
    ws_free objName ->
    Forall ws_free (Object_keys obj) ->
    toString (mkQueryBuilder [JStr (toSets v objName obj)])
    = join (js " ") (map (set_clause v objName) (Object_keys obj)).
Proof.
  intros v objName obj Hv Hn Hk.
  unfold toString. cbn [q Array_join map join join_element ToString].
  rewrite (toSets_lines v objName obj).
  destruct (Object_keys obj) as [|k ks]; [reflexivity|].
  rewrite (replace_toSets v objName Hv Hn k ks Hk), spaced_clauses.
  destruct (clauses_rendered v objName Hv Hn (k :: ks) Hk) as (Ha & Hb & Ho).
  set (J := join (js " ") (map (set_clause v objName) (k :: ks))) in *.
  rewrite remove_breaks_id.
  - unfold trim. cbn [trim_start]. change (is_ws SPACE) with true. cbv iota.
    apply (trim_id J Ho).
  - destruct Hb as (B1 & B2 & B3).
    repeat split; intros [H|H]; try discriminate H; auto.
Qed.

(** X23 at [toSets("e", "event", {eid: 1, name: "x"})]. *)
Lemma toSets_renders_to_clauses_witness :
  toString (mkQueryBuilder
              [JStr (toSets (js "e") (js "event")
                       [(js "eid", JNum 1); (js "name", JStr (js "x"))])])
  = js "SET e.eid = {event}.eid SET e.name = {event}.name".
Proof.
  exact (toSets_renders_to_clauses (js "e") (js "event")
           [(js "eid", JNum 1); (js "name", JStr (js "x"))]
           (ws_free_check (js "e") eq_refl) (ws_free_check (js "event") eq_refl)
           (Forall_cons _ (ws_free_check (js "eid") eq_refl)
              (Forall_cons _ (ws_free_check (js "name") eq_refl) (Forall_nil _)))).
Defined.

(** X24. The string [toNamedProps] returns, for a name and keys without
    white space, is a rendered string: added to a query builder as a
    fragment of its own it comes out of [toString] unchanged. *)
Theorem toNamedProps_is_rendered :
  forall (name : jsstring) (obj : list (jsstring * JSValue)),
    ws_free name ->
    Forall ws_free (Object_keys obj) ->
    toString (mkQueryBuilder [JStr (toNamedProps name obj)]) = toNamedProps name obj.
Proof.
  intros name obj Hn Hk.
  unfold toString. cbn [q Array_join map join join_element ToString].
  unfold toNamedProps.
  destruct (Object_keys obj) as [|k ks]; [reflexivity|].
  apply pipeline_id.
  apply rendered_join_sep.
  - simpl. auto.
  - repeat split; intros H; simpl in H;
      repeat (destruct H as [H|H]; [discriminate H|]); exact H.
  - induction Hk as [|x l Hx _ IH]; constructor; [|exact IH].
    split.
    + apply ws_free_rendered.
      repeat apply ws_free_app; trivial; apply ws_free_check; reflexivity.
    + intros H. apply app_eq_nil in H. destruct H as [_ H]. discriminate H.
  - discriminate.
Qed.

(** X24 at the object of the repository's test. *)
Lemma toNamedProps_is_rendered_witness :
  toString (mkQueryBuilder
              [JStr (toNamedProps (js "student")
                       [(js "name", JStr (js "Tim Jones")); (js "grade", JNum 9)])])
  = js "name:{student}.name, grade:{student}.grade".
Proof.
  exact (toNamedProps_is_rendered (js "student")
           [(js "name", JStr (js "Tim Jones")); (js "grade", JNum 9)]
           (ws_free_check (js "student") eq_refl)
           (Forall_cons _ (ws_free_check (js "name") eq_refl)
              (Forall_cons _ (ws_free_check (js "grade") eq_refl) (Forall_nil _)))).
Defined.

(** ** The credentials of [initGraphDB] *)

Section Credentials.

Ltac to_props :=
  repeat match goal with
         | H : (_ <? _)%N = true |- _ => apply N.ltb_lt in H
         | H : (_ <? _)%N = false |- _ => apply N.ltb_ge in H
         | H : (_ <=? _)%N = true |- _ => apply N.leb_le in H
         | H : (_ <=? _)%N = false |- _ => apply N.leb_gt in H
         | H : (_ =? _)%N = true |- _ => apply N.eqb_eq in H
         | H : (_ =? _)%N = false |- _ => apply N.eqb_neq in H
         end.

Ltac cases_on_tests :=
  repeat match goal with
         | |- context [(?a <? ?b)%N] => destruct (a <? b)%N eqn:?
         | |- context [(?a <=? ?b)%N] => destruct (a <=? b)%N eqn:?
         | |- context [(?a =? ?b)%N] => destruct (a =? b)%N eqn:?
         end; cbn [andb orb negb]; to_props.

Ltac div_lia := zify; Z.to_euclidean_division_equations; lia.

Lemma base64_char_range (i : N) : (43 <= base64_char i <= 122)%N.
Proof. unfold base64_char. cases_on_tests; lia. Qed.

Lemma base64_index_char (i : N) :
  (i < 64)%N -> base64_index (base64_char i) = Some i.
Proof.
  intros Hi. unfold base64_char.
  destruct (i <? 26)%N eqn:E1; [|destruct (i <? 52)%N eqn:E2;
    [|destruct (i <? 62)%N eqn:E3; [|destruct (i =? 62)%N eqn:E4]]];
    to_props; unfold base64_index; cases_on_tests; try lia; f_equal; lia.
Qed.

Lemma not_ws_in_range (c : code_unit) : (33 <= c < 160)%N -> is_ws c = false.
Proof.
  intros H. unfold is_ws. cases_on_tests; try reflexivity; lia.
Qed.

Lemma base64_encode_ws_free (bytes : list N) : ws_free (base64_encode bytes).
Proof.
  assert (Hc : forall i, is_ws (base64_char i) = false).
  { intros i. apply not_ws_in_range. pose proof (base64_char_range i). lia. }
  assert (H : forall n bs, length bs <= n -> ws_free (base64_encode bs)).
  { induction n as [|n IH]; intros bs Hlen.
    - destruct bs; [intros c []|simpl in Hlen; lia].
    - destruct bs as [|a [|b [|c rest]]]; intros x Hx; simpl in Hx.
      + destruct Hx.
      + repeat (destruct Hx as [<-|Hx]; [apply Hc || reflexivity|]). destruct Hx.
      + repeat (destruct Hx as [<-|Hx]; [apply Hc || reflexivity|]). destruct Hx.
      + repeat (destruct Hx as [<-|Hx]; [apply Hc|]).
        apply (IH rest); [simpl in Hlen; lia|exact Hx]. }
  apply (H (length bytes)). lia.
Qed.

Lemma base64_encode_length (bytes : list N) :
  length (base64_encode bytes) = 4 * ((length bytes + 2) / 3).
Proof.
  assert (H : forall n bs, length bs <= n ->
                length (base64_encode bs) = 4 * ((length bs + 2) / 3)).
  { induction n as [|n IH]; intros bs Hlen.
    - destruct bs; [reflexivity|simpl in Hlen; lia].
    - destruct bs as [|a [|b [|c rest]]]; try reflexivity.
      cbn [base64_encode length]. rewrite (IH rest) by (simpl in Hlen; lia).
      replace (S (S (S (length rest))) + 2) with ((length rest + 2) + 1 * 3) by lia.
      rewrite Nat.div_add by lia. lia. }
  apply (H (length bytes)). lia.
Qed.

Lemma base64_round_trip (bytes : list N) :
  Forall (fun b => (b < 256)%N) bytes ->
  base64_decode (base64_encode bytes) = bytes.
Proof.
  assert (H : forall n bs, length bs <= n -> Forall (fun b => (b < 256)%N) bs ->
                base64_decode (base64_encode bs) = bs).
  { induction n as [|n IH]; intros bs Hlen Hb.
    - destruct bs; [reflexivity|simpl in Hlen; lia].
    - destruct bs as [|a [|b [|c rest]]]; [reflexivity| | |].
      + inversion Hb as [|? ? Ha _]; subst.
        cbn [base64_encode base64_decode].
        rewrite !base64_index_char by div_lia.
        change (base64_index PAD) with (@None N). cbv iota.
        f_equal. div_lia.
      + inversion Hb as [|? ? Ha Hb']; subst. inversion Hb' as [|? ? Hb0 _]; subst.
        cbn [base64_encode base64_decode].
        rewrite !base64_index_char by div_lia.
        change (base64_index PAD) with (@None N). cbv iota.
        f_equal; [div_lia|]. f_equal. div_lia.
      + inversion Hb as [|? ? Ha Hb']; subst. inversion Hb' as [|? ? Hb0 Hb'']; subst.
        inversion Hb'' as [|? ? Hc Hrest]; subst.
        cbn [base64_encode base64_decode].
        rewrite !base64_index_char by div_lia.
        rewrite (IH rest) by (trivial; simpl in Hlen; lia).
        f_equal; [div_lia|]. f_equal; [div_lia|]. f_equal. div_lia. }
  intros Hb. apply (H (length bytes)); [lia|exact Hb].
Qed.

Lemma utf8_encode_bytes (s : jsstring) :
  Forall (fun c => (c < 65536)%N) s ->
  Forall (fun b => (b < 256)%N) (utf8_encode s).
Proof.
  assert (H : forall n s, length s <= n -> Forall (fun c => (c < 65536)%N) s ->
                Forall (fun b => (b < 256)%N) (utf8_encode s)).
  { clear s. induction n as [|n IH]; intros s Hlen Hs.
    - destruct s; [constructor|simpl in Hlen; lia].
    - destruct s as [|c r]; [constructor|].
      inversion Hs as [|? ? Hc Hr]; subst. simpl in Hlen.
      assert (IHr : Forall (fun b => (b < 256)%N) (utf8_encode r))
        by (apply IH; [lia|exact Hr]).
      cbn [utf8_encode]. unfold is_high_surrogate, is_low_surrogate.
      destruct (c <? 128)%N eqn:E1; to_props; [constructor; [lia|exact IHr]|].
      destruct (c <? 2048)%N eqn:E2; to_props;
        [repeat (constructor; [div_lia|]); exact IHr|].
      destruct ((55296 <=? c)%N && (c <=? 56319)%N) eqn:E3.
      + apply andb_true_iff in E3. destruct E3 as [E3 E3']. to_props.
        destruct r as [|d r']; [repeat constructor; lia|].
        destruct ((56320 <=? d)%N && (d <=? 57343)%N) eqn:E4.
        * apply andb_true_iff in E4. destruct E4 as [E4 E4']. to_props.
          inversion Hr as [|? ? Hd Hr']; subst.
          repeat (constructor; [div_lia|]).
          apply IH; [simpl in Hlen; lia|exact Hr'].
        * repeat (constructor; [lia|]). exact IHr.
      + destruct ((56320 <=? c)%N && (c <=? 57343)%N) eqn:E4.
        * repeat (constructor; [lia|]). exact IHr.
        * repeat (constructor; [div_lia|]). exact IHr. }
  intros Hs. apply (H (length s)); [apply le_n|exact Hs].
Qed.

Lemma utf8_encode_ascii (s : jsstring) :
  Forall (fun c => (c < 128)%N) s -> utf8_encode s = s.
Proof.
  induction 1 as [|c r Hc _ IH]; [reflexivity|].
  cbn [utf8_encode]. apply N.ltb_lt in Hc. rewrite Hc, IH. reflexivity.
Qed.

End Credentials.

(** X25. [initGraphDB] sets credentials only when the user name and the
    password are both truthy.  With either of them missing or empty --
    an empty password with a user name, say -- [auth] becomes the empty
    string, whatever it was before, and the transactions the facade
    creates send [Authorization: Basic ] with nothing after it, to the
    URL of the database followed by [/db/data/transaction]. *)
Theorem initGraphDB_without_credentials :
  forall (graphDBUrl : jsstring) (userName password : JSValue) (n : Facade.Neo4j),
    truthy userName = false \/ truthy password = false ->
    Facade.auth (Facade.initGraphDB graphDBUrl userName password n) = [] /\
    batch_request
      (Facade.createTransaction (Facade.initGraphDB graphDBUrl userName password n))
    = {| url := JStr (graphDBUrl ++ js "/db/data/transaction");
         method := js "post";
         headers := [ (js "content-type", js "application/json");
                      (js "Accept", js "application/json; charset=UTF-8");
                      (js "Authorization", js "Basic ") ];
         body := Some [] |}.
Proof.
  intros graphDBUrl userName password n H.
  assert (E : truthy userName && truthy password = false).
  { destruct H as [-> | ->]; [reflexivity|apply andb_false_r]. }
  unfold Facade.createTransaction, Facade.initGraphDB, createTransaction, batch_request,
    request_headers. cbn [Facade.auth Facade.graphDatabaseUrl Facade.cacher].
  rewrite E. split; reflexivity.
Qed.

(** X25 at a user name with an empty password. *)
Lemma initGraphDB_without_credentials_witness :
  Facade.auth (Facade.initGraphDB (js "http://localhost:7474")
                 (JStr (js "neo4j")) (JStr [])
                 (Facade.initGraphDB (js "http://localhost:7474")
                    (JStr (js "neo4j")) (JStr (js "pass")) Facade.new_Neo4j))
  = [].
Proof.
  exact (proj1 (initGraphDB_without_credentials (js "http://localhost:7474")
                  (JStr (js "neo4j")) (JStr [])
                  (Facade.initGraphDB (js "http://localhost:7474")
                     (JStr (js "neo4j")) (JStr (js "pass")) Facade.new_Neo4j)
                  (or_intror eq_refl))).
Defined.

(** X26. For a user name and a password that are non-empty strings,
    [auth] is the base64 text of the UTF-8 bytes of
    [userName:password]: decoding it gives those bytes back, and for
    ASCII credentials the very string [userName:password]. *)
Theorem initGraphDB_auth_decodes :
  forall (graphDBUrl userName password : jsstring) (n : Facade.Neo4j),
    userName <> [] ->
    password <> [] ->
    Forall (fun c => (c < 65536)%N) userName ->
    Forall (fun c => (c < 65536)%N) password ->
    base64_decode
      (Facade.auth (Facade.initGraphDB graphDBUrl (JStr userName) (JStr password) n))
    = utf8_encode (userName ++ js ":" ++ password) /\
    (Forall (fun c => (c < 128)%N) userName ->
     Forall (fun c => (c < 128)%N) password ->
     base64_decode
       (Facade.auth (Facade.initGraphDB graphDBUrl (JStr userName) (JStr password) n))
     = userName ++ js ":" ++ password).
Proof.
  intros graphDBUrl userName password n Hu Hp Wu Wp.
  unfold Facade.initGraphDB. cbn [Facade.auth truthy ToString].
  destruct userName as [|u0 u]; [contradiction|].
  destruct password as [|p0 p]; [contradiction|].
  cbn [andb].
  assert (R : base64_decode
                (base64_encode (utf8_encode ((u0 :: u) ++ js ":" ++ p0 :: p)))
              = utf8_encode ((u0 :: u) ++ js ":" ++ p0 :: p)).
  { apply base64_round_trip, utf8_encode_bytes.
    apply Forall_app. split; [exact Wu|].
    constructor; [reflexivity|exact Wp]. }
  split; [exact R|].
  intros Au Ap. rewrite R. apply utf8_encode_ascii.
  apply Forall_app. split; [exact Au|].
  constructor; [reflexivity|exact Ap].
Qed.

(** X26 at the credentials [neo4j] and [pass]. *)
Lemma initGraphDB_auth_decodes_witness :
  Facade.auth (Facade.initGraphDB (js "http://localhost:7474")
                 (JStr (js "neo4j")) (JStr (js "pass")) Facade.new_Neo4j)
    = js "bmVvNGo6cGFzcw==" /\
  base64_decode (js "bmVvNGo6cGFzcw==") = js "neo4j:pass".
Proof.
  split; [reflexivity|].
  assert (Hu : js "neo4j" <> []) by discriminate.
  assert (Hp : js "pass" <> []) by discriminate.
  assert (Hc : forall s, forallb (fun c => (c <? 128)%N) s = true ->
                 Forall (fun c => (c < 128)%N) s).
  { intros s H. apply Forall_forall. intros c Hin.
    rewrite forallb_forall in H. apply N.ltb_lt, H, Hin. }
  assert (Hw : forall s, forallb (fun c => (c <? 65536)%N) s = true ->
                 Forall (fun c => (c < 65536)%N) s).
  { intros s H. apply Forall_forall. intros c Hin.
    rewrite forallb_forall in H. apply N.ltb_lt, H, Hin. }
  exact (proj2 (initGraphDB_auth_decodes (js "http://localhost:7474")
                  (js "neo4j") (js "pass") Facade.new_Neo4j
                  Hu Hp (Hw (js "neo4j") eq_refl) (Hw (js "pass") eq_refl))
           (Hc (js "neo4j") eq_refl) (Hc (js "pass") eq_refl)).
Defined.

(** X27. Whatever [initGraphDB] is given, the [auth] it stores contains
    no white space and has a length that is a multiple of four; the
    value of the Authorization header, [Basic ] followed by [auth],
    holds no newline, carriage return or tab. *)
Theorem initGraphDB_auth_shape :
  forall (graphDBUrl : jsstring) (userName password : JSValue) (n : Facade.Neo4j),
    ws_free (Facade.auth (Facade.initGraphDB graphDBUrl userName password n)) /\
    Nat.modulo
      (length (Facade.auth (Facade.initGraphDB graphDBUrl userName password n))) 4 = 0 /\
    no_line_breaks
      (js "Basic " ++ Facade.auth (Facade.initGraphDB graphDBUrl userName password n)).
Proof.
  intros graphDBUrl userName password n.
  unfold Facade.initGraphDB. cbn [Facade.auth].
  set (bytes := utf8_encode (ToString userName ++ js ":" ++ ToString password)).
  assert (W : ws_free (if truthy userName && truthy password
                       then base64_encode bytes else [])).
  { destruct (truthy userName && truthy password);
      [apply base64_encode_ws_free|intros c []]. }
  split; [exact W|]. split.
  - destruct (truthy userName && truthy password); [|reflexivity].
    rewrite base64_encode_length, Nat.mul_comm. apply Nat.Div0.mod_mul.
  - apply no_line_breaks_app.
    + repeat split; intros H; simpl in H;
        repeat (destruct H as [H|H]; [discriminate H|]); exact H.
    + repeat split; intros H; apply W in H; discriminate H.
Qed.

(** ** A failed cache read *)

Section CacheMiss.

Variable env : Env.

(** What has been logged before [_processTransaction] is called changes
    nothing in its run, as long as no request is among it. *)
Lemma processTransaction_frame (t : Transaction) (tr : list Event) :
  requests_of tr = [] ->
  _processTransaction env t tr
  = {| this_after := this_after (_processTransaction env t []);
       trace := tr ++ trace (_processTransaction env t []);
       settled := settled (_processTransaction env t []) |}.
Proof.
  intros Hreq.
  unfold _processTransaction, _processTransaction_call, _processTransaction_callbacks.
  unfold and_then, lift. rewrite Hreq. cbn [requests_of app].
  destruct (server env [] (batch_request t)) as [res|e]; [|reflexivity].
  unfold on_batch_response.
  destruct (negb (status res =? HTTP_OK)%Z && negb (status res =? HTTP_CREATED)%Z).
  { unfold and_then, fetch_detached, emit, throw. simpl.
    rewrite <- app_assoc. reflexivity. }
  unfold lift.
  destruct (json res) as [body|e]; [|reflexivity].
  unfold on_batch_json.
  destruct (0 <? Z.of_nat (length (errors body)))%Z; [reflexivity|].
  unfold and_then, fetch, pure.
  rewrite requests_of_app, Hreq. cbn [requests_of app].
  destruct (server env [batch_request t] (commit_request (set_used t) (commit body)))
    as [res2|e]; [|simpl; rewrite <- app_assoc; reflexivity].
  unfold on_commit_response. cbn [fst snd].
  destruct (status res2 =? HTTP_OK)%Z; [|simpl; rewrite <- app_assoc; reflexivity].
  destruct (truthy (cachable (set_used t)));
    [|simpl; rewrite <- app_assoc; reflexivity].
  destruct (cacher (set_used t)); [|simpl; rewrite <- app_assoc; reflexivity].
  destruct (global_cacher env);
    unfold and_then, emit, pure, throw; simpl; rewrite <- !app_assoc; reflexivity.
Qed.

End CacheMiss.

(** X28. Where a global [cacher] exists and the read through it fails
    (a miss or an error), the reason is logged to the console and goes no
    further: after the two cache calls and the log entry the run is the
    run of [_processTransaction], with its requests and its outcome, and
    the transaction is used up. *)
Theorem cache_miss_falls_through :
  forall (env : Env) (t : Transaction) (g : Handle) (reason : Thrown),
    cached t = true ->
    global_cacher env = Some g ->
    cache_getData env g (cachePrefix t) (cacheKey t) = Throw reason ->
    trace (execute env t)
      = [SetCachePrefix g (cachePrefix t); GetData g (cacheKey t); ConsoleLog reason]
        ++ trace (_processTransaction env t []) /\
    settled (execute env t) = settled (_processTransaction env t []) /\
    used (this_after (execute env t)) = true.
Proof.
  intros env t g reason Hc Hg Hmiss.
  rewrite (execute_cache_miss env t Hc g reason Hg Hmiss).
  rewrite processTransaction_frame by reflexivity. cbn [trace settled this_after].
  rewrite this_after_processTransaction. repeat split.
Qed.

(** X28 at a cached transaction in a host whose global cache is empty. *)
Lemma cache_miss_falls_through_witness :
  trace (execute global_cacher_world sample_cached_transaction)
    = [SetCachePrefix 0 (JStr (js "students")); GetData 0 (JStr (js "all"));
       ConsoleLog (HostError (js "no data"))]
      ++ trace (_processTransaction global_cacher_world sample_cached_transaction []) /\
  settled (execute global_cacher_world sample_cached_transaction)
    = Resolved sample_results.
Proof.
  destruct (cache_miss_falls_through global_cacher_world sample_cached_transaction
              0 (HostError (js "no data")) eq_refl eq_refl eq_refl) as (H1 & H2 & _).
  split; [exact H1|]. rewrite H2. reflexivity.
Defined.
